(** * chime-backend: the meeting registry of [index.js] and [server.js]

    A shallow embedding of the Express handlers that keep the in-process
    [meetings] object, of the periodic [cleanupExpiredMeetings] task, and of
    the JavaScript primitives those handlers rely on (property lookup on
    plain objects, truthiness, [===], [Date.prototype.toISOString], the
    numeric coercion of [-] and [>]).

    The remote provider ([chimeClient.send]) is an oracle that answers each
    command with a reply or a thrown error; every command sent is logged.
    A handler runs from its first statement to its response without another
    handler running in between: the interleavings that [await] allows are
    not part of this model. *)

From Stdlib Require Import ZArith QArith Ascii String List Bool Lia.
From stdpp Require Import base option gmap strings list fin_maps.

Local Close Scope Q_scope.
Local Open Scope Z_scope.
Local Open Scope string_scope.

(** ** JavaScript values and coercions *)

Module JS.

(** Values a JSON request body field can hold, as far as the handlers look
    at them.  Numbers and nested objects in a request body are left out.
    [JBuiltin k] is the built-in object found under the name [k] on
    [Object.prototype]; it only arises from a lookup, never from a body. *)
Inductive jsval :=
| JUndefined
| JNull
| JBool (b : bool)
| JStr (s : string)
| JBuiltin (k : string).

#[global] Instance jsval_eq_dec : EqDecision jsval.
Proof. solve_decision. Defined.

(** ToBoolean. *)
Definition truthy (v : jsval) : bool :=
  match v with
  | JUndefined | JNull => false
  | JBool b => b
  | JStr s => negb (String.eqb s EmptyString)
  | JBuiltin _ => true
  end.

(** ToString, as applied to a computed property key [o[v]]. *)
Definition ToString (v : jsval) : string :=
  match v with
  | JUndefined => "undefined"
  | JNull => "null"
  | JBool true => "true"
  | JBool false => "false"
  | JStr s => s
  | JBuiltin "__proto__" => "[object Object]"
  | JBuiltin k => "function " ++ k ++ "() { [native code] }"
  end.

(** [v === w]: same type and same value; two built-ins are the same object
    exactly when they sit under the same name. *)
Definition strict_eq (v w : jsval) : bool := bool_decide (v = w).

(** [a || b] *)
Definition js_or (a b : jsval) : jsval := if truthy a then a else b.

(** The property names every object literal inherits from
    [Object.prototype]. *)
Definition Object_prototype_keys : list string :=
  [ "constructor"; "__defineGetter__"; "__defineSetter__"; "hasOwnProperty";
    "__lookupGetter__"; "__lookupSetter__"; "isPrototypeOf";
    "propertyIsEnumerable"; "toString"; "valueOf"; "__proto__";
    "toLocaleString" ].

Definition inherited (k : string) : bool :=
  bool_decide (k ∈ Object_prototype_keys).

(** The outcome of [o[k]] on an object literal used as a map: an own
    property, a property of [Object.prototype], or [undefined]. *)
Inductive Property (A : Type) :=
| Own (a : A)
| Inherited (k : string)
| Absent.
Arguments Own {A} a.
Arguments Inherited {A} k.
Arguments Absent {A}.

Definition js_get {A} (o : gmap string A) (k : string) : Property A :=
  match o !! k with
  | Some a => Own a
  | None => if inherited k then Inherited k else Absent
  end.

(** Truthiness of [o[k]] when the own properties hold objects: own and
    inherited properties are objects or functions, hence truthy. *)
Definition present {A} (p : Property A) : bool :=
  match p with
  | Own _ | Inherited _ => true
  | Absent => false
  end.

(** [s.includes(needle)] *)
Fixpoint includes (needle s : string) : bool :=
  if String.prefix needle s then true
  else match s with
       | EmptyString => false
       | String _ s' => includes needle s'
       end.

(** *** Numbers

    The Number type with its not-a-number and its infinities; finite values
    are exact rationals (rounding to binary64 and the sign of zero are not
    modelled: the program only subtracts and compares millisecond
    timestamps, which are integers well below 2^53). *)
Inductive number :=
| NaN
| Infinity (negative : bool)
| Finite (q : Q).

Definition of_Z (z : Z) : number := Finite (inject_Z z).

(** [a - b] on numbers *)
Definition num_sub (a b : number) : number :=
  match a, b with
  | NaN, _ | _, NaN => NaN
  | Infinity s, Infinity s' => if Bool.eqb s s' then NaN else Infinity s
  | Infinity s, Finite _ => Infinity s
  | Finite _, Infinity s => Infinity (negb s)
  | Finite x, Finite y => Finite (Qred (x - y))
  end.

Definition Qltb (x y : Q) : bool :=
  Z.ltb (Qnum x * Z.pos (Qden y)) (Qnum y * Z.pos (Qden x)).

(** [a > b] on numbers: false as soon as one side is NaN. *)
Definition num_gt (a b : number) : bool :=
  match a, b with
  | NaN, _ | _, NaN => false
  | Infinity s, Infinity s' => negb s && s'
  | Infinity s, Finite _ => negb s
  | Finite _, Infinity s => s
  | Finite x, Finite y => Qltb y x
  end.

(** *** StringToNumber (the StringNumericLiteral grammar) *)

Definition is_ws (c : ascii) : bool :=
  let n := N_of_ascii c in
  (N.leb 9 n && N.leb n 13) || N.eqb n 32.

Fixpoint drop_ws (l : list ascii) : list ascii :=
  match l with
  | c :: l' => if is_ws c then drop_ws l' else l
  | [] => []
  end.

Definition trim (l : list ascii) : list ascii :=
  rev (drop_ws (rev (drop_ws l))).

(** the value of a digit of the given radix *)
Definition digit_of (radix : Z) (c : ascii) : option Z :=
  let n := Z.of_N (N_of_ascii c) in
  let d := if Z.leb 48 n && Z.leb n 57 then n - 48
           else if Z.leb 97 n && Z.leb n 102 then n - 87
           else if Z.leb 65 n && Z.leb n 70 then n - 55
           else radix in
  if Z.ltb d radix then Some d else None.

(** reads the longest run of digits: its value, its length, the rest *)
Fixpoint read_digits (radix : Z) (l : list ascii) (acc : Z) (n : nat)
  : Z * nat * list ascii :=
  match l with
  | c :: l' =>
      match digit_of radix c with
      | Some d => read_digits radix l' (radix * acc + d) (S n)
      | None => (acc, n, l)
      end
  | [] => (acc, n, [])
  end.

(** [m * 10^e] *)
Definition scale (m e : Z) : Q :=
  if Z.leb 0 e then inject_Z (m * 10 ^ e)
  else Qred (Qmake m (Z.to_pos (10 ^ (- e)))).

(** ExponentPart, optional, up to the end of the literal *)
Definition read_exponent (l : list ascii) : option Z :=
  match l with
  | [] => Some 0
  | c :: l1 =>
      if Ascii.eqb c "e" || Ascii.eqb c "E" then
        let '(sgn, l2) :=
          match l1 with
          | "+"%char :: r => (1, r)
          | "-"%char :: r => (-1, r)
          | _ => (1, l1)
          end in
        match read_digits 10 l2 0 0 with
        | (v, S _, []) => Some (sgn * v)
        | _ => None
        end
      else None
  end.

(** StrUnsignedDecimalLiteral *)
Definition unsigned_decimal (l : list ascii) : option number :=
  if bool_decide (l = list_ascii_of_string "Infinity") then Some (Infinity false)
  else
    let '(ip, n1, r1) := read_digits 10 l 0 0 in
    match r1 with
    | "."%char :: r2 =>
        let '(fp, n2, r3) := read_digits 10 r2 0 0 in
        match n1, n2 with
        | O, O => None
        | _, _ =>
            e ← read_exponent r3;
            Some (Finite (scale (ip * 10 ^ Z.of_nat n2 + fp) (e - Z.of_nat n2)))
        end
    | _ =>
        match n1 with
        | O => None
        | S _ => e ← read_exponent r1; Some (Finite (scale ip e))
        end
    end.

Definition negate (x : number) : number :=
  match x with
  | NaN => NaN
  | Infinity s => Infinity (negb s)
  | Finite q => Finite (Qred (- q))
  end.

(** NonDecimalIntegerLiteral: the digits after a [0x], [0o] or [0b] prefix *)
Definition non_decimal (radix : Z) (l : list ascii) : option number :=
  match read_digits radix l 0 0 with
  | (v, S _, []) => Some (of_Z v)
  | _ => None
  end.

Definition StrNumericLiteral (l : list ascii) : option number :=
  match l with
  | "0"%char :: "x"%char :: r | "0"%char :: "X"%char :: r => non_decimal 16 r
  | "0"%char :: "o"%char :: r | "0"%char :: "O"%char :: r => non_decimal 8 r
  | "0"%char :: "b"%char :: r | "0"%char :: "B"%char :: r => non_decimal 2 r
  | "+"%char :: r => unsigned_decimal r
  | "-"%char :: r => negate <$> unsigned_decimal r
  | _ => unsigned_decimal l
  end.

(** A string that is only white space is 0; one that is not a numeric
    literal is NaN. *)
Definition StringToNumber (s : string) : number :=
  match trim (list_ascii_of_string s) with
  | [] => of_Z 0
  | l => default NaN (StrNumericLiteral l)
  end.

(** [n - s] for a number [n] and a string [s]: both operands go through
    ToNumeric. *)
Definition sub_num_str (n : Z) (s : string) : number :=
  num_sub (of_Z n) (StringToNumber s).

End JS.

(** ** Dates: [Date.now()] and [new Date().toISOString()]

    A time value is the number of milliseconds since the epoch, an integer.
    [toISOString] prints it in UTC as [YYYY-MM-DDTHH:mm:ss.sssZ], with a
    signed six-digit year outside 0..9999. *)

Module Date.

Definition msPerDay : Z := 86400000.

Definition Day (t : Z) : Z := t / msPerDay.
Definition TimeWithinDay (t : Z) : Z := t mod msPerDay.

(** Year, month (1..12) and day of the month (1..31) of a day number, in the
    proleptic Gregorian calendar. *)
Definition civil_from_days (days : Z) : Z * Z * Z :=
  let z := days + 719468 in
  let era := z / 146097 in
  let doe := z mod 146097 in
  let yoe := (doe - doe / 1460 + doe / 36524 - doe / 146096) / 365 in
  let doy := doe - (365 * yoe + yoe / 4 - yoe / 100) in
  let mp := (5 * doy + 2) / 153 in
  let d := doy - (153 * mp + 2) / 5 + 1 in
  let m := if Z.ltb mp 10 then mp + 3 else mp - 9 in
  let y := yoe + era * 400 + (if Z.leb m 2 then 1 else 0) in
  (y, m, d).

Definition digit_char (d : Z) : ascii :=
  ascii_of_N (Z.to_N (48 + d mod 10)).

(** [n] in decimal on exactly [width] digits, padded with zeros *)
Fixpoint pad (width : nat) (n : Z) : string :=
  match width with
  | O => EmptyString
  | S w => pad w (n / 10) ++ String (digit_char n) EmptyString
  end.

Definition year_string (y : Z) : string :=
  if Z.leb 0 y && Z.leb y 9999 then pad 4 y
  else if Z.ltb y 0 then "-" ++ pad 6 (- y)
  else "+" ++ pad 6 y.

Definition toISOString (t : Z) : string :=
  let '(y, m, d) := civil_from_days (Day t) in
  let ms := TimeWithinDay t in
  year_string y ++ "-" ++ pad 2 m ++ "-" ++ pad 2 d ++ "T"
    ++ pad 2 (ms / 3600000) ++ ":" ++ pad 2 (ms / 60000 mod 60) ++ ":"
    ++ pad 2 (ms / 1000 mod 60) ++ "." ++ pad 3 (ms mod 1000) ++ "Z".

End Date.

(** ** The data the handlers keep and exchange *)

Import JS.

(** An error object: what [chimeClient.send] rejects with, or a TypeError
    raised by the runtime. *)
Record JsError := { name : string; message : string }.

Definition TypeError (msg : string) : JsError :=
  {| name := "TypeError"; message := msg |}.

(** [response.Meeting] of CreateMeeting and GetMeeting, as far as it is
    read: [Meeting.MeetingId], [Meeting.ExternalMeetingId] and
    [Meeting?.MeetingFeatures?.Transcription?.Status]. *)
Record MeetingDescriptor := {
  MeetingId : string;
  ExternalMeetingId : jsval;
  TranscriptionStatus : jsval
}.

(** [response.Attendee] of CreateAttendee; the handlers pass it on unread. *)
Record AttendeeDescriptor := {
  AttendeeId : string;
  ExternalUserId : jsval;
  JoinToken : string
}.

(** An entry of [meetings[id].attendees]; [attendeeInfo] is [None] when the
    reply carried no [Attendee]. *)
Record AttendeeEntry := {
  userId : jsval;
  userName : jsval;
  joinTime : string;
  attendeeInfo : option AttendeeDescriptor
}.

(** The two literals stored in [transcriptionMethod]. *)
Inductive Method := aws | alternative.

(** An entry of [meetings]; [transcriptionMethod] is [None] as long as the
    property has not been assigned. *)
Record Session := {
  meetingId : string;
  Meeting : MeetingDescriptor;
  creationTime : string;
  attendees : gmap string AttendeeEntry;
  transcriptionEnabled : bool;
  transcriptionMethod : option Method;
  creatorId : jsval
}.

Definition set_attendees (f : gmap string AttendeeEntry → gmap string AttendeeEntry)
    (s : Session) : Session :=
  {| meetingId := meetingId s; Meeting := Meeting s;
     creationTime := creationTime s; attendees := f (attendees s);
     transcriptionEnabled := transcriptionEnabled s;
     transcriptionMethod := transcriptionMethod s; creatorId := creatorId s |}.

Definition set_transcriptionEnabled (b : bool) (s : Session) : Session :=
  {| meetingId := meetingId s; Meeting := Meeting s;
     creationTime := creationTime s; attendees := attendees s;
     transcriptionEnabled := b;
     transcriptionMethod := transcriptionMethod s; creatorId := creatorId s |}.

Definition set_transcriptionMethod (m : Method) (s : Session) : Session :=
  {| meetingId := meetingId s; Meeting := Meeting s;
     creationTime := creationTime s; attendees := attendees s;
     transcriptionEnabled := transcriptionEnabled s;
     transcriptionMethod := Some m; creatorId := creatorId s |}.

(** [EngineTranscribeSettings] of a StartMeetingTranscription command; the
    four optional settings are only given by [server.js]. *)
Record EngineTranscribeSettings := {
  LanguageCode : jsval;
  Region : jsval;
  VocabularyFilterMethod : string;
  EnablePartialResultsStabilization : option bool;
  PartialResultsStability : option string;
  ContentIdentificationType : option string;
  EnablePartialResults : option bool
}.

(** The commands handed to [chimeClient.send]. *)
Inductive Command :=
| CreateMeetingCommand (ClientRequestToken MediaRegion ExternalId : string)
| CreateAttendeeCommand (MeetingId ExternalUserId : jsval)
| StartMeetingTranscriptionCommand (MeetingId : jsval)
    (settings : EngineTranscribeSettings)
| StopMeetingTranscriptionCommand (MeetingId : jsval)
| DeleteMeetingCommand (MeetingId : jsval)
| GetMeetingCommand (MeetingId : jsval).

(** What a resolved [send] yields: an object with a [Meeting], with an
    [Attendee], or with neither. *)
Inductive Reply :=
| MeetingReply (m : MeetingDescriptor)
| AttendeeReply (a : AttendeeDescriptor)
| EmptyReply.

(** [reply.Meeting] and [reply.Attendee]: [None] stands for [undefined]. *)
Definition reply_Meeting (r : Reply) : option MeetingDescriptor :=
  match r with MeetingReply m => Some m | _ => None end.

Definition reply_Attendee (r : Reply) : option AttendeeDescriptor :=
  match r with AttendeeReply a => Some a | _ => None end.

(** The remote provider: each command is rejected with an error or resolved
    with a reply. *)
Definition Gateway := Command → JsError + Reply.

(** What a handler reads from its surroundings: the clock, the two
    identifiers [uuidv4()] draws, [process.env.AWS_REGION]. *)
Record Env := {
  now : Z;
  uuid1 : string;
  uuid2 : string;
  AWS_REGION : jsval
}.

(** The [meetingInfo] copy sent back by join-meeting. *)
Record MeetingInfo := {
  info_Meeting : MeetingDescriptor;
  info_meetingId : string;
  info_creationTime : string;
  info_transcriptionEnabled : bool
}.

Definition meetingInfo_of (s : Session) : MeetingInfo :=
  {| info_Meeting := Meeting s; info_meetingId := meetingId s;
     info_creationTime := creationTime s;
     info_transcriptionEnabled := transcriptionEnabled s |}.

(** An element of the list-meetings answer. *)
Record Projection := {
  p_meetingId : string;
  p_externalMeetingId : jsval;
  p_creationTime : string;
  p_attendeeCount : nat;
  p_transcriptionEnabled : bool
}.

(** Response bodies, by shape.  A property whose value is [undefined] is
    dropped by [res.json]: [None] below. *)
Inductive Body :=
| ErrorBody (error : string)
| MeetingList (l : list Projection)
| JoinBody (meetingInfo : MeetingInfo)
    (attendee : option AttendeeDescriptor) (isCreator : bool)
| CreatedBody (id : string)
| SuccessBody (msg : string) (note : option string)
| PermissionBody (error details : string) (alternativeAvailable : bool)
    (msg : string)
| StatusBody (id : string) (local chime : bool) (serverTime : string).
  (* check-transcription; its [chimeStatus], the raw reply, is left out *)

(** [res.status(n).json(body)]; [res.json(body)] answers with status 200. *)
Record Response := Json { status : nat; body : Body }.

(** The process state: the [meetings] object and, for the proofs, the log
    of the commands sent so far. *)
Record World := {
  meetings : gmap string Session;
  sent : list Command
}.

Definition initial : World := {| meetings := ∅; sent := [] |}.

(** ** Running a handler: state, the command log, exceptions *)

Inductive Completion (A : Type) :=
| Normal (a : A)
| Throw (e : JsError).
Arguments Normal {A} a.
Arguments Throw {A} e.

Definition Run (A : Type) : Type := World → Completion A * World.

#[global] Instance Run_ret : MRet Run := λ A a w, (Normal a, w).

#[global] Instance Run_bind : MBind Run := λ A B k c w,
  match c w with
  | (Normal a, w') => k a w'
  | (Throw e, w') => (Throw e, w')
  end.

Definition throw {A} (e : JsError) : Run A := λ w, (Throw e, w).

(** [try { c } catch (error) { h error }] *)
Definition try_catch {A} (c : Run A) (h : JsError → Run A) : Run A := λ w,
  match c w with
  | (Normal a, w') => (Normal a, w')
  | (Throw e, w') => h e w'
  end.

Definition get_meetings : Run (gmap string Session) := λ w, (Normal (meetings w), w).

Definition put_meetings (ms : gmap string Session) : Run unit := λ w,
  (Normal (), {| meetings := ms; sent := sent w |}).

(** [await chimeClient.send(cmd)] *)
Definition send (g : Gateway) (cmd : Command) : Run Reply := λ w,
  let w' := {| meetings := meetings w; sent := sent w ++ [cmd] |} in
  match g cmd with
  | inl e => (Throw e, w')
  | inr r => (Normal r, w')
  end.

(** [meetings[meetingId]] *)
Definition meeting_at (meetingId : jsval) : Run (Property Session) :=
  ms ← get_meetings; mret (js_get ms (ToString meetingId)).

(** [!meetingId || !meetings[meetingId]] *)
Definition not_found (meetingId : jsval) : Run bool :=
  p ← meeting_at meetingId; mret (negb (truthy meetingId) || negb (present p)).

(** [meetings[meetingId].field = v], as an update of the stored session.
    Under an inherited name the assignment lands on the built-in object and
    the registry keeps its entries; on [undefined] it throws. *)
Definition assign_meeting (meetingId : jsval) (f : Session → Session) : Run unit :=
  ms ← get_meetings;
  match js_get ms (ToString meetingId) with
  | Own s => put_meetings (<[ToString meetingId := f s]> ms)
  | Inherited _ => mret ()
  | Absent => throw (TypeError "Cannot set properties of undefined")
  end.

(** [meetings[id] = m] for a new entry.  Under the name [__proto__] the
    assignment replaces the prototype of [meetings] and adds no own
    property; what lookups find through the replaced prototype is not
    modelled. *)
Definition add_meeting (id : string) (m : Session) : Run unit :=
  ms ← get_meetings;
  if String.eqb id "__proto__" then mret () else put_meetings (<[id := m]> ms).

(** [delete meetings[meetingId]]: drops an own property, leaves the rest. *)
Definition delete_meeting_entry (meetingId : jsval) : Run unit :=
  ms ← get_meetings; put_meetings (delete (ToString meetingId) ms).

Definition respond (code : nat) (b : Body) : Run Response :=
  mret (Json code b).

(** ** The handlers of [index.js] *)

Module Index.

(** [GET /list-meetings].  The entries come in the order of [map_to_list],
    which stands for the property order of [Object.keys]. *)
Definition project (entry : string * Session) : Projection :=
  let '(id, meeting) := entry in
  {| p_meetingId := id;
     p_externalMeetingId :=
       if truthy (ExternalMeetingId (Meeting meeting))
       then ExternalMeetingId (Meeting meeting) else JStr "Sin ID externo";
     p_creationTime := creationTime meeting;
     p_attendeeCount := size (attendees meeting);
     p_transcriptionEnabled := transcriptionEnabled meeting || false |}.

Definition list_meetings : Run Response :=
  try_catch
    (ms ← get_meetings;
     respond 200 (MeetingList (project <$> map_to_list ms)))
    (λ error, respond 500 (ErrorBody ("Error al listar reuniones: " ++ message error))).

(** [POST /join-meeting] with body [{ meetingId, userId, userName }] *)
Definition join_meeting (env : Env) (g : Gateway)
    (meetingId userId userName : jsval) : Run Response :=
  try_catch
    (missing ← not_found meetingId;
     if missing : bool then respond 404 (ErrorBody "Reunión no encontrada")
     else
       p ← meeting_at meetingId;
       match p with
       | Own m =>
           match js_get (attendees m) (ToString userId) with
           | Own a =>
               respond 200 (JoinBody (meetingInfo_of m) (attendeeInfo a)
                              (strict_eq userId (creatorId m)))
           | Inherited _ =>
               (* a built-in is truthy and has no [attendeeInfo] *)
               respond 200 (JoinBody (meetingInfo_of m) None
                              (strict_eq userId (creatorId m)))
           | Absent =>
               attendeeResponse ← send g (CreateAttendeeCommand meetingId userId);
               assign_meeting meetingId
                 (set_attendees
                    <[ToString userId :=
                        {| userId := userId;
                           userName := js_or userName userId;
                           joinTime := Date.toISOString (now env);
                           attendeeInfo := reply_Attendee attendeeResponse |}]>);;
               p' ← meeting_at meetingId;
               match p' with
               | Own m' =>
                   respond 200 (JoinBody (meetingInfo_of m')
                                  (reply_Attendee attendeeResponse)
                                  (strict_eq userId (creatorId m')))
               | _ => throw (TypeError "Cannot read properties of undefined (reading 'Meeting')")
               end
           end
       | _ =>
           (* [meetings[meetingId].attendees] is undefined *)
           throw (TypeError ("Cannot read properties of undefined (reading '"
                             ++ ToString userId ++ "')"))
       end)
    (λ error, respond 500 (ErrorBody ("Error al unirse a la reunión: " ++ message error))).

(** [new CreateMeetingCommand({ ClientRequestToken: uuidv4(),
    MediaRegion: 'us-east-1', ExternalMeetingId: uuidv4() })] *)
Definition createMeetingCommand (env : Env) : Command :=
  CreateMeetingCommand (uuid1 env) "us-east-1" (uuid2 env).

(** [POST /create-meeting] with body [{ userId }] *)
Definition create_meeting (env : Env) (g : Gateway) (userId : jsval) : Run Response :=
  try_catch
    (meetingResponse ← send g (createMeetingCommand env);
     match reply_Meeting meetingResponse with
     | None => throw (TypeError "Cannot read properties of undefined (reading 'MeetingId')")
     | Some meeting =>
         let id := MeetingId meeting in
         add_meeting id
           {| meetingId := id;
              Meeting := meeting;
              creationTime := Date.toISOString (now env);
              attendees := ∅;
              transcriptionEnabled := false;
              transcriptionMethod := None;
              creatorId := userId |};;
         respond 200 (CreatedBody id)
     end)
    (λ error, respond 500 (ErrorBody ("Error al crear reunión: " ++ message error))).

(** The object literal [languageMapping]. *)
Definition languageMapping : gmap string string :=
  {[ "es-ES" := "es-US"; "es" := "es-US" ]}.

(** [languageMapping[language] || language || 'es-US'] *)
Definition mappedLanguage (language : jsval) : jsval :=
  let mapped :=
    match js_get languageMapping (ToString language) with
    | Own l => JStr l
    | Inherited k => JBuiltin k
    | Absent => JUndefined
    end in
  js_or (js_or mapped language) (JStr "es-US").

(** The test of the inner [catch] of start-transcription:
    [error.name === 'AccessDeniedException' ||
     error.message.includes('Access Denied') ||
     error.message.includes('not authorized')] *)
Definition is_permission_error (error : JsError) : bool :=
  String.eqb (name error) "AccessDeniedException"
  || includes "Access Denied" (message error)
  || includes "not authorized" (message error).

(** The command built by start-transcription:
    [LanguageCode: mappedLanguage],
    [Region: region || process.env.AWS_REGION || 'us-east-1'],
    [VocabularyFilterMethod: 'mask']. *)
Definition startTranscriptionCommand (env : Env)
    (meetingId region language : jsval) : Command :=
  StartMeetingTranscriptionCommand meetingId
    {| LanguageCode := mappedLanguage language;
       Region := js_or (js_or region (AWS_REGION env)) (JStr "us-east-1");
       VocabularyFilterMethod := "mask";
       EnablePartialResultsStabilization := None;
       PartialResultsStability := None;
       ContentIdentificationType := None;
       EnablePartialResults := None |}.

(** [POST /start-transcription] with body [{ meetingId, region, language }] *)
Definition start_transcription (env : Env) (g : Gateway)
    (meetingId region language : jsval) : Run Response :=
  try_catch
    (missing ← not_found meetingId;
     if missing : bool then respond 404 (ErrorBody "Reunión no encontrada")
     else
       try_catch
         (send g (startTranscriptionCommand env meetingId region language);;
          assign_meeting meetingId (set_transcriptionEnabled true);;
          assign_meeting meetingId (set_transcriptionMethod aws);;
          respond 200 (SuccessBody "Transcripción iniciada correctamente" None))
         (λ error,
            if is_permission_error error then
              assign_meeting meetingId (set_transcriptionEnabled true);;
              assign_meeting meetingId (set_transcriptionMethod alternative);;
              respond 403
                (PermissionBody "Error de permisos al iniciar transcripción"
                   (message error) true
                   "Se ha activado la transcripción alternativa debido a problemas de permisos")
            else throw error))
    (λ error, respond 500 (ErrorBody ("Error al iniciar transcripción: " ++ message error))).

(** [POST /stop-transcription] with body [{ meetingId }] *)
Definition stop_transcription (g : Gateway) (meetingId : jsval) : Run Response :=
  try_catch
    (missing ← not_found meetingId;
     if missing : bool then respond 404 (ErrorBody "Reunión no encontrada")
     else
       send g (StopMeetingTranscriptionCommand meetingId);;
       assign_meeting meetingId (set_transcriptionEnabled false);;
       respond 200 (SuccessBody "Transcripción detenida" None))
    (λ error, respond 500 (ErrorBody ("Error al detener transcripción: " ++ message error))).

(** [DELETE /delete-meeting/:meetingId]: [meetingId] is the route
    parameter, a string. *)
Definition delete_meeting (g : Gateway) (meetingId : string) : Run Response :=
  try_catch
    (missing ← not_found (JStr meetingId);
     if missing : bool then respond 404 (ErrorBody "Reunión no encontrada")
     else
       try_catch
         (send g (DeleteMeetingCommand (JStr meetingId));; mret ())
         (λ chimeError, mret ());;
       delete_meeting_entry (JStr meetingId);;
       respond 200 (SuccessBody "Reunión eliminada correctamente" None))
    (λ error, respond 500 (ErrorBody ("Error al eliminar reunión: " ++ message error))).

(** [POST /delete-meeting] with body [{ meetingId }] *)
Definition delete_meeting_post (g : Gateway) (meetingId : jsval) : Run Response :=
  try_catch
    (missing ← not_found meetingId;
     if missing : bool then respond 404 (ErrorBody "Reunión no encontrada")
     else
       try_catch
         (send g (DeleteMeetingCommand meetingId);; mret ())
         (λ chimeError, mret ());;
       delete_meeting_entry meetingId;;
       respond 200 (SuccessBody "Reunión eliminada correctamente" None))
    (λ error, respond 500 (ErrorBody ("Error al eliminar reunión: " ++ message error))).

(** [GET /check-transcription/:meetingId] *)
Definition check_transcription (env : Env) (g : Gateway) (meetingId : string)
  : Run Response :=
  try_catch
    (missing ← not_found (JStr meetingId);
     if missing : bool then respond 404 (ErrorBody "Reunión no encontrada")
     else
       p ← meeting_at (JStr meetingId);
       (* on a built-in the property is undefined, unless an earlier request
          assigned it there, which is not tracked *)
       let isEnabledLocally :=
         match p with Own m => transcriptionEnabled m || false | _ => false end in
       isEnabledOnChime ←
         try_catch
           (meetingInfo ← send g (GetMeetingCommand (JStr meetingId));
            mret (match reply_Meeting meetingInfo with
                  | Some m => strict_eq (TranscriptionStatus m) (JStr "Active")
                  | None => false
                  end))
           (λ chimeError, mret false);
       respond 200 (StatusBody meetingId isEnabledLocally isEnabledOnChime
                      (Date.toISOString (now env))))
    (λ error, respond 500
       (ErrorBody ("Error al verificar estado de transcripción: " ++ message error))).

(** [POST /start-transcription-alternative] with body [{ meetingId }] *)
Definition start_transcription_alternative (meetingId : jsval) : Run Response :=
  try_catch
    (missing ← not_found meetingId;
     if missing : bool then respond 404 (ErrorBody "Reunión no encontrada")
     else
       assign_meeting meetingId (set_transcriptionEnabled true);;
       assign_meeting meetingId (set_transcriptionMethod alternative);;
       respond 200 (SuccessBody "Transcripción alternativa iniciada"
         (Some "Esta es una solución alternativa mientras se configuran los permisos correctos en AWS")))
    (λ error, respond 500
       (ErrorBody ("Error al iniciar transcripción alternativa: " ++ message error))).

(** *** The reaper *)

Definition EXPIRY_MS : Z := 60 * 60 * 1000.

(** [now - meetings[meetingId].creationTime > EXPIRY_MS], for the stored
    creation time, a string. *)
Definition expired (now : Z) (creationTime : string) : bool :=
  num_gt (sub_num_str now creationTime) (of_Z EXPIRY_MS).

(** One turn of the [for] loop of [cleanupExpiredMeetings]. *)
Definition cleanup_one (now : Z) (g : Gateway) (meetingId : string) : Run unit :=
  p ← meeting_at (JStr meetingId);
  match p with
  | Own m =>
      if expired now (creationTime m) then
        try_catch
          (send g (DeleteMeetingCommand (JStr meetingId));; mret ())
          (λ error, mret ());;
        delete_meeting_entry (JStr meetingId)
      else mret ()
  | Inherited _ => mret ()   (* [now - undefined] is NaN *)
  | Absent => throw (TypeError "Cannot read properties of undefined (reading 'creationTime')")
  end.

Fixpoint cleanup_loop (now : Z) (g : Gateway) (ids : list string) : Run unit :=
  match ids with
  | [] => mret ()
  | meetingId :: rest => cleanup_one now g meetingId;; cleanup_loop now g rest
  end.

(** [cleanupExpiredMeetings()], run by [setInterval] every 15 minutes: the
    loop goes over the keys [Object.keys(meetings)] had at its start. *)
Definition cleanupExpiredMeetings (env : Env) (g : Gateway) : Run unit :=
  ms ← get_meetings;
  cleanup_loop (now env) g (map_to_list ms).*1.

End Index.

(** *** Requests and the transitions of the process

    The routes that read or write [meetings].  ([GET /verify-aws-permissions]
    touches neither [meetings] nor any session and is left out.) *)

Inductive Request :=
| ListMeetings
| JoinMeeting (meetingId userId userName : jsval)
| CreateMeeting (userId : jsval)
| StartTranscription (meetingId region language : jsval)
| StopTranscription (meetingId : jsval)
| DeleteMeeting (meetingId : string)
| DeleteMeetingPost (meetingId : jsval)
| CheckTranscription (meetingId : string)
| StartTranscriptionAlternative (meetingId : jsval).

Definition handle (env : Env) (g : Gateway) (r : Request) : Run Response :=
  match r with
  | ListMeetings => Index.list_meetings
  | JoinMeeting meetingId userId userName =>
      Index.join_meeting env g meetingId userId userName
  | CreateMeeting userId => Index.create_meeting env g userId
  | StartTranscription meetingId region language =>
      Index.start_transcription env g meetingId region language
  | StopTranscription meetingId => Index.stop_transcription g meetingId
  | DeleteMeeting meetingId => Index.delete_meeting g meetingId
  | DeleteMeetingPost meetingId => Index.delete_meeting_post g meetingId
  | CheckTranscription meetingId => Index.check_transcription env g meetingId
  | StartTranscriptionAlternative meetingId =>
      Index.start_transcription_alternative meetingId
  end.

(** What happens to the process: a request is served, or the interval
    timer fires the reaper. *)
Inductive Event :=
| Http (r : Request)
| Tick.

Definition exec (env : Env) (g : Gateway) (ev : Event) (w : World) : World :=
  match ev with
  | Http r => (handle env g r w).2
  | Tick => (Index.cleanupExpiredMeetings env g w).2
  end.

(** ** [server.js]

    [server.js] carries the same routes; its handlers are the text of
    [index.js] except for start-transcription, which sends fixed settings
    and has a single [catch]. *)

Module Server.

(** The command built by start-transcription, with its fixed settings. *)
Definition startTranscriptionCommand (env : Env) (meetingId : jsval) : Command :=
  StartMeetingTranscriptionCommand meetingId
    {| LanguageCode := JStr "es-US";
       VocabularyFilterMethod := "mask";
       EnablePartialResultsStabilization := Some true;
       PartialResultsStability := Some "high";
       ContentIdentificationType := Some "PII";
       Region := js_or (AWS_REGION env) (JStr "us-east-1");
       EnablePartialResults := Some true |}.

(** [POST /start-transcription] with body [{ meetingId }] *)
Definition start_transcription (env : Env) (g : Gateway) (meetingId : jsval)
  : Run Response :=
  try_catch
    (missing ← not_found meetingId;
     if missing : bool then respond 404 (ErrorBody "Reunión no encontrada")
     else
       send g (startTranscriptionCommand env meetingId);;
       assign_meeting meetingId (set_transcriptionEnabled true);;
       respond 200 (SuccessBody "Transcripción iniciada" None))
    (λ error, respond 500 (ErrorBody ("Error al iniciar transcripción: " ++ message error))).

End Server.

(** ** Notions used in the statements *)

(** What the handlers need of an id the provider assigned for a session to
    be found and, once removed, to be gone: it is not the empty string and
    not a name inherited from [Object.prototype].  (The provider's ids are
    UUIDs.) *)
Definition provider_id (id : string) : bool :=
  negb (String.eqb id EmptyString) && negb (inherited id).

(** The [meetingId] a request names, if any. *)
Definition request_meetingId (r : Request) : option jsval :=
  match r with
  | ListMeetings | CreateMeeting _ => None
  | JoinMeeting meetingId _ _ | StartTranscription meetingId _ _
  | StopTranscription meetingId | DeleteMeetingPost meetingId
  | StartTranscriptionAlternative meetingId => Some meetingId
  | DeleteMeeting meetingId | CheckTranscription meetingId => Some (JStr meetingId)
  end.

(** [Object.keys(meetings[id].attendees).length] *)
Definition attendee_count (w : World) (id : string) : option nat :=
  (λ m, size (attendees m)) <$> meetings w !! id.

(** The entry join-meeting stores for a new attendee. *)
Definition joined (env : Env) (uid uname : jsval) (reply : Reply) : AttendeeEntry :=
  {| userId := uid; userName := js_or uname uid;
     joinTime := Date.toISOString (now env);
     attendeeInfo := reply_Attendee reply |}.

(** The entry create-meeting stores. *)
Definition created (env : Env) (md : MeetingDescriptor) (uid : jsval) : Session :=
  {| meetingId := MeetingId md; Meeting := md;
     creationTime := Date.toISOString (now env); attendees := ∅;
     transcriptionEnabled := false; transcriptionMethod := None;
     creatorId := uid |}.

(** The transcription mode a session records: [transcriptionMethod] not yet
    assigned, ['aws'], ['alternative']. *)
Inductive Mode := Off | ProviderManaged | Degraded.

Definition mode (m : Session) : Mode :=
  match transcriptionMethod m with
  | None => Off
  | Some aws => ProviderManaged
  | Some alternative => Degraded
  end.

Definition has_mode (m : Session) : Prop :=
  transcriptionEnabled m = true → mode m = ProviderManaged ∨ mode m = Degraded.

Definition off_when_disabled (m : Session) : Prop :=
  transcriptionEnabled m = false → mode m = Off.

(** Both halves, for every session of the registry. *)
Definition TranscriptionState_invariant (w : World) : Prop :=
  ∀ id m, meetings w !! id = Some m → has_mode m ∧ off_when_disabled m.

(** The first half alone. *)
Definition enabled_has_mode (w : World) : Prop :=
  ∀ id m, meetings w !! id = Some m → has_mode m.

(** A creation time as create-meeting stores it. *)
Definition iso_stamped (m : Session) : Prop :=
  ∃ t, creationTime m = Date.toISOString t.

Definition fresh_session (m : Session) : Prop :=
  attendees m = ∅ ∧ transcriptionEnabled m = false
  ∧ transcriptionMethod m = None ∧ iso_stamped m.

(** The ways one handler run, or one turn of the reaper's loop, can change
    [meetings]. *)
Inductive change (ms : gmap string Session) : gmap string Session → Prop :=
| change_none : change ms ms
| change_create id m : fresh_session m → change ms (<[id := m]> ms)
| change_join k m f : ms !! k = Some m → change ms (<[k := set_attendees f m]> ms)
| change_start k m how :
    ms !! k = Some m →
    change ms (<[k := set_transcriptionMethod how (set_transcriptionEnabled true m)]> ms)
| change_stop k m :
    ms !! k = Some m → change ms (<[k := set_transcriptionEnabled false m]> ms)
| change_delete k : change ms (delete k ms).

(** The states the process of [index.js] can be in. *)
Inductive reachable : World → Prop :=
| reachable_initial : reachable initial
| reachable_exec env g ev w : reachable w → reachable (exec env g ev w).

(** A decimal digit character. *)
Definition dec_digit (c : ascii) : bool :=
  match digit_of 10 c with Some _ => true | None => false end.

(** *** Sample data for the closed statements *)

Module Sample.

Definition id : string := "6f1c2d3e-4a5b-4c6d-8e7f-9a0b1c2d3e4f".

Definition meeting : MeetingDescriptor :=
  {| MeetingId := id;
     ExternalMeetingId := JStr "b2a1c3d4-0001-4e5f-9a8b-7c6d5e4f3a2b";
     TranscriptionStatus := JUndefined |}.

Definition attendee (uid : jsval) : AttendeeDescriptor :=
  {| AttendeeId := "0a1b2c3d-0002-4e5f-8a9b-1c2d3e4f5a6b";
     ExternalUserId := uid; JoinToken := "token" |}.

(** a provider that accepts every command *)
Definition accepting : Gateway := λ cmd,
  match cmd with
  | CreateMeetingCommand _ _ _ | GetMeetingCommand _ => inr (MeetingReply meeting)
  | CreateAttendeeCommand _ uid => inr (AttendeeReply (attendee uid))
  | _ => inr EmptyReply
  end.

Definition denied : JsError :=
  {| name := "AccessDeniedException";
     message := "User is not authorized to perform: chime:StartMeetingTranscription" |}.

Definition unavailable : JsError :=
  {| name := "ServiceUnavailableException"; message := "Service unavailable" |}.

(** a provider that refuses transcription for lack of permission *)
Definition denying : Gateway := λ cmd,
  match cmd with
  | StartMeetingTranscriptionCommand _ _ => inl denied
  | _ => accepting cmd
  end.

(** a provider that is down *)
Definition failing : Gateway := λ _, inl unavailable.

Definition t0 : Z := 1700000000000.
Definition minutes (n : Z) : Z := n * 60 * 1000.

Definition at_time (t : Z) : Env :=
  {| now := t;
     uuid1 := "11111111-1111-4111-8111-111111111111";
     uuid2 := "22222222-2222-4222-8222-222222222222";
     AWS_REGION := JUndefined |}.

(** the registry after one create-meeting at [t0], and its one session *)
Definition w_created : World :=
  exec (at_time t0) accepting (Http (CreateMeeting (JStr "u0"))) initial.

Definition m_created : Session := created (at_time t0) meeting (JStr "u0").

(** and after a start-transcription the provider accepted *)
Definition w_started : World :=
  exec (at_time (t0 + minutes 1)) accepting
    (Http (StartTranscription (JStr id) JUndefined (JStr "es"))) w_created.

Definition m_started : Session :=
  set_transcriptionMethod aws (set_transcriptionEnabled true m_created).

(** and after a stop-transcription the provider accepted *)
Definition w_stopped : World :=
  exec (at_time (t0 + minutes 5)) accepting
    (Http (StopTranscription (JStr id))) w_started.

(** and, from [w_created], after a join the provider accepted *)
Definition w_joined : World :=
  exec (at_time (t0 + minutes 2)) accepting
    (Http (JoinMeeting (JStr id) (JStr "u1") (JStr "Ana"))) w_created.

Definition m_joined : Session :=
  set_attendees
    <["u1" := joined (at_time (t0 + minutes 2)) (JStr "u1") (JStr "Ana")
                (AttendeeReply (attendee (JStr "u1")))]> m_created.

(** a registry, not one the handlers build, whose one creation time is a
    string of digits *)
Definition w_numeric : World :=
  {| meetings :=
       {[ id := {| meetingId := id; Meeting := meeting;
                   creationTime := "1700000000000"; attendees := ∅;
                   transcriptionEnabled := false; transcriptionMethod := None;
                   creatorId := JStr "u0" |} ]};
     sent := [] |}.

End Sample.

(** ** Notions used in the further statements *)

(** What a request that names a session can do to [meetings]: nothing, or
    one update of, or the removal of, the entry under that name. *)
Inductive touch (k : string) (ms : gmap string Session) : gmap string Session → Prop :=
| touch_none : touch k ms ms
| touch_join m u a :
    ms !! k = Some m → attendees m !! u = None → ToString (userId a) = u →
    touch k ms (<[k := set_attendees <[u := a]> m]> ms)
| touch_start m how :
    ms !! k = Some m →
    touch k ms (<[k := set_transcriptionMethod how (set_transcriptionEnabled true m)]> ms)
| touch_stop m :
    ms !! k = Some m → touch k ms (<[k := set_transcriptionEnabled false m]> ms)
| touch_delete : touch k ms (delete k ms).

(** The one command a route can send. *)
Definition command_of (env : Env) (r : Request) : option Command :=
  match r with
  | ListMeetings | StartTranscriptionAlternative _ => None
  | JoinMeeting meetingId userId _ => Some (CreateAttendeeCommand meetingId userId)
  | CreateMeeting _ => Some (Index.createMeetingCommand env)
  | StartTranscription meetingId region language =>
      Some (Index.startTranscriptionCommand env meetingId region language)
  | StopTranscription meetingId => Some (StopMeetingTranscriptionCommand meetingId)
  | DeleteMeeting meetingId => Some (DeleteMeetingCommand (JStr meetingId))
  | DeleteMeetingPost meetingId => Some (DeleteMeetingCommand meetingId)
  | CheckTranscription meetingId => Some (GetMeetingCommand (JStr meetingId))
  end.

(** The log after a request: as before, or longer by the route's command. *)
Definition logs (c : option Command) (w w' : World) : Prop :=
  sent w' = sent w ∨ ∃ cmd, c = Some cmd ∧ sent w' = (sent w ++ [cmd])%list.

(** Both, for the request [r] naming [id]. *)
Definition effect (env : Env) (r : Request) (id : jsval) (w w' : World) : Prop :=
  touch (ToString id) (meetings w) (meetings w') ∧ logs (command_of env r) w w'.

(** reaper, for any registry *)
(** [now - meetings[id].creationTime > EXPIRY_MS] for the entry under [id] *)
Definition expired_entry (now : Z) (ms : gmap string Session) (id : string) : bool :=
  match ms !! id with
  | Some m => Index.expired now (creationTime m)
  | None => false
  end.

(** The DeleteMeeting commands of a cycle over the keys [ids]. *)
Definition deletions (now : Z) (ms : gmap string Session) (ids : list string)
  : list Command :=
  (λ id, DeleteMeetingCommand (JStr id))
    <$> filter (λ id, expired_entry now ms id = true) ids.

(** every session under its id, every attendee under its userId *)
(** A session under its own id, its attendees under their [userId]. *)
Definition session_keyed (k : string) (m : Session) : Prop :=
  meetingId m = k ∧ MeetingId (Meeting m) = k
  ∧ ∀ u a, attendees m !! u = Some a → ToString (userId a) = u.

Definition keyed (w : World) : Prop :=
  ∀ k m, meetings w !! k = Some m → session_keyed k m.

(** *** [GET /verify-aws-permissions] of [index.js]

    The handler reads and writes nothing of [meetings]; what it answers
    depends on the outcomes of its two remote calls, which are its inputs
    here: [None] for a call that resolved, [Some error] for one that
    threw. *)

Record PermissionCheck := { check_status : string; check_details : string }.

Record PermissionsReport := {
  chimeSDKMeetings : PermissionCheck;
  transcribe : PermissionCheck;
  hasPermissionIssues : bool;
  recommendations : list string
}.

(** One [try]/[catch] block: [status = 'success'] with the given details,
    or [status = 'error'] with [`Error: ${error.message}`]. *)
Definition permission_check (granted : string) (outcome : option JsError)
  : PermissionCheck :=
  match outcome with
  | None => {| check_status := "success"; check_details := granted |}
  | Some error =>
      {| check_status := "error"; check_details := "Error: " ++ message error |}
  end.

Definition verify_aws_permissions (listMeetings transcribeSend : option JsError)
  : PermissionsReport :=
  let chime :=
    permission_check "Permisos correctos para Chime SDK Meetings" listMeetings in
  let tr := permission_check "Permisos correctos para Transcribe" transcribeSend in
  let issues :=
    String.eqb (check_status chime) "error"
      && includes "AccessDenied" (check_details chime)
    || String.eqb (check_status tr) "error"
         && includes "AccessDenied" (check_details tr) in
  {| chimeSDKMeetings := chime;
     transcribe := tr;
     hasPermissionIssues := issues;
     recommendations :=
       if issues then
         [ "Verifica que las credenciales de AWS sean correctas";
           "Asegúrate de que el usuario de IAM tenga los permisos necesarios para Chime SDK Meetings y Transcribe";
           "Considera usar la transcripción alternativa mientras se resuelven los problemas de permisos" ]
       else [] |}.

(** ** Running the primitives *)

Lemma bind_run {A B} (c : Run A) (k : A → Run B) (w : World) :
  (c ≫= k) w = match c w with
               | (Normal a, w') => k a w'
               | (Throw e, w') => (Throw e, w')
               end.
Proof. reflexivity. Qed.

Lemma js_get_own {A} (o : gmap string A) k a : o !! k = Some a → js_get o k = Own a.
Proof. intros H. unfold js_get. by rewrite H. Qed.

Lemma js_get_own_inv {A} (o : gmap string A) k a : js_get o k = Own a → o !! k = Some a.
Proof. unfold js_get. destruct (o !! k), (inherited k); congruence. Qed.

Lemma js_get_insert {A} (o : gmap string A) k a : js_get (<[k := a]> o) k = Own a.
Proof. apply js_get_own, lookup_insert_eq. Qed.

Lemma present_absent {A} (o : gmap string A) k :
  present (js_get o k) = false ↔ js_get o k = Absent.
Proof. unfold js_get. destruct (o !! k), (inherited k); simpl; split; congruence. Qed.

Lemma js_get_absent {A} (o : gmap string A) k :
  js_get o k = Absent → o !! k = None ∧ inherited k = false.
Proof. unfold js_get. destruct (o !! k), (inherited k); simpl; try congruence. done. Qed.

Lemma meeting_at_run w id : meeting_at id w = (Normal (js_get (meetings w) (ToString id)), w).
Proof. reflexivity. Qed.

Lemma not_found_run w id :
  not_found id w =
    (Normal (negb (truthy id) || negb (present (js_get (meetings w) (ToString id)))), w).
Proof. reflexivity. Qed.

Lemma meeting_at_own w id m :
  meetings w !! ToString id = Some m → meeting_at id w = (Normal (Own m), w).
Proof. intros H. by rewrite meeting_at_run, (js_get_own _ _ _ H). Qed.

Lemma not_found_own w id m :
  truthy id = true → meetings w !! ToString id = Some m →
  not_found id w = (Normal false, w).
Proof. intros Ht H. by rewrite not_found_run, (js_get_own _ _ _ H), Ht. Qed.

Lemma not_found_absent w id :
  js_get (meetings w) (ToString id) = Absent → not_found id w = (Normal true, w).
Proof. intros H. rewrite not_found_run, H. simpl. by rewrite orb_true_r. Qed.

Lemma assign_meeting_own w id f m :
  meetings w !! ToString id = Some m →
  assign_meeting id f w =
    (Normal (), {| meetings := <[ToString id := f m]> (meetings w); sent := sent w |}).
Proof.
  intros H. unfold assign_meeting. rewrite bind_run. simpl.
  by rewrite (js_get_own _ _ _ H).
Qed.

Lemma assign_meeting_inherited w id f k :
  js_get (meetings w) (ToString id) = Inherited k → assign_meeting id f w = (Normal (), w).
Proof. intros H. unfold assign_meeting. rewrite bind_run. simpl. by rewrite H. Qed.

Lemma assign_meeting_twice w id f f' m :
  meetings w !! ToString id = Some m →
  (assign_meeting id f ≫= λ _, assign_meeting id f') w =
    (Normal (), {| meetings := <[ToString id := f' (f m)]> (meetings w); sent := sent w |}).
Proof.
  intros H. rewrite bind_run, (assign_meeting_own _ _ _ _ H).
  erewrite assign_meeting_own by (simpl; apply lookup_insert_eq).
  simpl. by rewrite insert_insert_eq.
Qed.

(** ** What each handler does when the session is there *)

Lemma join_fresh env g w id uid uname m reply :
  truthy id = true →
  meetings w !! ToString id = Some m →
  present (js_get (attendees m) (ToString uid)) = false →
  g (CreateAttendeeCommand id uid) = inr reply →
  Index.join_meeting env g id uid uname w =
    (Normal (Json 200 (JoinBody (meetingInfo_of m) (reply_Attendee reply)
                         (strict_eq uid (creatorId m)))),
     {| meetings :=
          <[ToString id :=
              set_attendees <[ToString uid := joined env uid uname reply]> m]>
            (meetings w);
        sent := sent w ++ [CreateAttendeeCommand id uid] |}).
Proof.
  intros Ht Hm Ha Hg. apply present_absent in Ha.
  unfold Index.join_meeting, try_catch.
  rewrite bind_run, (not_found_own _ _ _ Ht Hm).
  rewrite bind_run, (meeting_at_own _ _ _ Hm).
  rewrite Ha. rewrite bind_run. unfold send. rewrite Hg.
  rewrite bind_run. erewrite assign_meeting_own by exact Hm.
  rewrite bind_run. erewrite meeting_at_own by (simpl; apply lookup_insert_eq).
  reflexivity.
Qed.

Lemma join_known env g w id uid uname m a :
  truthy id = true →
  meetings w !! ToString id = Some m →
  attendees m !! ToString uid = Some a →
  Index.join_meeting env g id uid uname w =
    (Normal (Json 200 (JoinBody (meetingInfo_of m) (attendeeInfo a)
                         (strict_eq uid (creatorId m)))), w).
Proof.
  intros Ht Hm Ha.
  unfold Index.join_meeting, try_catch.
  rewrite bind_run, (not_found_own _ _ _ Ht Hm).
  rewrite bind_run, (meeting_at_own _ _ _ Hm).
  by rewrite (js_get_own _ _ _ Ha).
Qed.

Lemma join_rejected env g w id uid uname m e :
  truthy id = true →
  meetings w !! ToString id = Some m →
  present (js_get (attendees m) (ToString uid)) = false →
  g (CreateAttendeeCommand id uid) = inl e →
  Index.join_meeting env g id uid uname w =
    (Normal (Json 500 (ErrorBody ("Error al unirse a la reunión: " ++ message e))),
     {| meetings := meetings w; sent := sent w ++ [CreateAttendeeCommand id uid] |}).
Proof.
  intros Ht Hm Ha Hg. apply present_absent in Ha.
  unfold Index.join_meeting, try_catch.
  rewrite bind_run, (not_found_own _ _ _ Ht Hm).
  rewrite bind_run, (meeting_at_own _ _ _ Hm).
  rewrite Ha. rewrite bind_run. unfold send. by rewrite Hg.
Qed.

(** A [userId] that names a property of [Object.prototype] passes the
    "already in the meeting" test of a session nobody has joined: the answer
    carries no attendee, nothing is sent and nothing is stored. *)
Lemma join_inherited_name env g w id uid uname m :
  truthy id = true →
  meetings w !! ToString id = Some m →
  attendees m !! ToString uid = None →
  inherited (ToString uid) = true →
  Index.join_meeting env g id uid uname w =
    (Normal (Json 200 (JoinBody (meetingInfo_of m) None
                         (strict_eq uid (creatorId m)))), w).
Proof.
  intros Ht Hm Ha Hi.
  unfold Index.join_meeting, try_catch.
  rewrite bind_run, (not_found_own _ _ _ Ht Hm).
  rewrite bind_run, (meeting_at_own _ _ _ Hm).
  unfold js_get. by rewrite Ha, Hi.
Qed.

Lemma stop_success g w id m reply :
  truthy id = true →
  meetings w !! ToString id = Some m →
  g (StopMeetingTranscriptionCommand id) = inr reply →
  Index.stop_transcription g id w =
    (Normal (Json 200 (SuccessBody "Transcripción detenida" None)),
     {| meetings := <[ToString id := set_transcriptionEnabled false m]> (meetings w);
        sent := sent w ++ [StopMeetingTranscriptionCommand id] |}).
Proof.
  intros Ht Hm Hg. unfold Index.stop_transcription, try_catch.
  rewrite bind_run, (not_found_own _ _ _ Ht Hm).
  rewrite bind_run. unfold send. rewrite Hg.
  rewrite bind_run. erewrite assign_meeting_own by exact Hm. reflexivity.
Qed.

Lemma stop_failure g w id m e :
  truthy id = true →
  meetings w !! ToString id = Some m →
  g (StopMeetingTranscriptionCommand id) = inl e →
  Index.stop_transcription g id w =
    (Normal (Json 500 (ErrorBody ("Error al detener transcripción: " ++ message e))),
     {| meetings := meetings w;
        sent := sent w ++ [StopMeetingTranscriptionCommand id] |}).
Proof.
  intros Ht Hm Hg. unfold Index.stop_transcription, try_catch.
  rewrite bind_run, (not_found_own _ _ _ Ht Hm).
  rewrite bind_run. unfold send. by rewrite Hg.
Qed.

Lemma delete_meeting_present g w id m :
  truthy (JStr id) = true →
  meetings w !! id = Some m →
  Index.delete_meeting g id w =
    (Normal (Json 200 (SuccessBody "Reunión eliminada correctamente" None)),
     {| meetings := delete id (meetings w);
        sent := sent w ++ [DeleteMeetingCommand (JStr id)] |}).
Proof.
  intros Ht Hm. unfold Index.delete_meeting.
  unfold try_catch at 1.
  rewrite bind_run, (not_found_own w (JStr id) m Ht Hm).
  rewrite !bind_run. unfold try_catch, send.
  rewrite bind_run.
  destruct (g (DeleteMeetingCommand (JStr id))); reflexivity.
Qed.

Lemma handle_not_found env g r w id :
  request_meetingId r = Some id →
  js_get (meetings w) (ToString id) = Absent →
  handle env g r w = (Normal (Json 404 (ErrorBody "Reunión no encontrada")), w).
Proof.
  intros Hr Ha.
  destruct r; simpl in Hr; try discriminate; injection Hr as <-; simpl;
    [ unfold Index.join_meeting | unfold Index.start_transcription
    | unfold Index.stop_transcription | unfold Index.delete_meeting
    | unfold Index.delete_meeting_post | unfold Index.check_transcription
    | unfold Index.start_transcription_alternative ];
    unfold try_catch at 1; rewrite bind_run, (not_found_absent _ _ Ha); reflexivity.
Qed.

Lemma create_meeting_failure env g uid w e :
  g (Index.createMeetingCommand env) = inl e →
  Index.create_meeting env g uid w =
    (Normal (Json 500 (ErrorBody ("Error al crear reunión: " ++ message e))),
     {| meetings := meetings w; sent := sent w ++ [Index.createMeetingCommand env] |}).
Proof.
  intros Hg. unfold Index.create_meeting, try_catch. rewrite bind_run.
  unfold send. by rewrite Hg.
Qed.

Lemma create_meeting_success env g uid w md :
  g (Index.createMeetingCommand env) = inr (MeetingReply md) →
  MeetingId md ≠ "__proto__" →
  Index.create_meeting env g uid w =
    (Normal (Json 200 (CreatedBody (MeetingId md))),
     {| meetings := <[MeetingId md := created env md uid]> (meetings w);
        sent := sent w ++ [Index.createMeetingCommand env] |}).
Proof.
  intros Hg Hid. unfold Index.create_meeting, try_catch. rewrite bind_run.
  unfold send. rewrite Hg. simpl.
  rewrite bind_run. unfold add_meeting. rewrite bind_run. simpl.
  apply String.eqb_neq in Hid. by rewrite Hid.
Qed.

Lemma server_start_failure env g w id m e :
  truthy id = true →
  meetings w !! ToString id = Some m →
  g (Server.startTranscriptionCommand env id) = inl e →
  Server.start_transcription env g id w =
    (Normal (Json 500 (ErrorBody ("Error al iniciar transcripción: " ++ message e))),
     {| meetings := meetings w;
        sent := sent w ++ [Server.startTranscriptionCommand env id] |}).
Proof.
  intros Ht Hm Hg. unfold Server.start_transcription, try_catch.
  rewrite bind_run, (not_found_own _ _ _ Ht Hm).
  rewrite bind_run. unfold send. by rewrite Hg.
Qed.

(** In [server.js] an accepted start sets the flag and records no method. *)
Lemma server_start_success env g w id m reply :
  truthy id = true →
  meetings w !! ToString id = Some m →
  g (Server.startTranscriptionCommand env id) = inr reply →
  Server.start_transcription env g id w =
    (Normal (Json 200 (SuccessBody "Transcripción iniciada" None)),
     {| meetings := <[ToString id := set_transcriptionEnabled true m]> (meetings w);
        sent := sent w ++ [Server.startTranscriptionCommand env id] |}).
Proof.
  intros Ht Hm Hg. unfold Server.start_transcription, try_catch.
  rewrite bind_run, (not_found_own _ _ _ Ht Hm).
  rewrite bind_run. unfold send. rewrite Hg.
  rewrite bind_run. erewrite assign_meeting_own by exact Hm. reflexivity.
Qed.

(** ** Every handler changes the registry in one of six ways *)

Ltac handler_cases w id :=
  unfold try_catch at 1; rewrite bind_run, not_found_run;
  let p := fresh "p" in let Hp := fresh "Hp" in
  destruct (js_get (meetings w) (ToString id)) as [p| |] eqn:Hp;
  [apply js_get_own_inv in Hp| |];
  (destruct (truthy id); simpl; [|apply change_none]);
  [ | |apply change_none].

Ltac assign_both w id how p Hp :=
  let H2 := fresh "H2" in
  pose proof (assign_meeting_twice w id (set_transcriptionEnabled true)
                (set_transcriptionMethod how) p Hp) as H2;
  rewrite bind_run in H2; rewrite bind_run;
  destruct (assign_meeting id (set_transcriptionEnabled true) _) as [[[]|?] ?];
  [|discriminate];
  rewrite bind_run, H2; simpl; by apply change_start.

Lemma join_meeting_change env g id uid uname w :
  change (meetings w) (meetings (Index.join_meeting env g id uid uname w).2).
Proof.
  unfold Index.join_meeting. handler_cases w id.
  - rewrite bind_run, meeting_at_run, (js_get_own _ _ _ Hp).
    destruct (js_get (attendees p) (ToString uid)); try apply change_none.
    rewrite bind_run. unfold send. destruct (g _) as [e|r]; [apply change_none|].
    rewrite bind_run. erewrite assign_meeting_own by exact Hp.
    rewrite bind_run, meeting_at_run. simpl. rewrite js_get_insert. simpl.
    by apply change_join.
  - rewrite bind_run, meeting_at_run. simpl. rewrite Hp. apply change_none.
Qed.

Lemma create_meeting_change env g uid w :
  change (meetings w) (meetings (Index.create_meeting env g uid w).2).
Proof.
  unfold Index.create_meeting, try_catch. rewrite bind_run. unfold send.
  destruct (g _) as [e|[md| |]]; simpl; try apply change_none.
  rewrite bind_run. unfold add_meeting. rewrite bind_run. simpl.
  destruct (String.eqb _ _); simpl; [apply change_none|].
  apply change_create. repeat split; try done. by eexists.
Qed.

Lemma start_transcription_change env g id region language w :
  change (meetings w) (meetings (Index.start_transcription env g id region language w).2).
Proof.
  unfold Index.start_transcription. handler_cases w id.
  - unfold try_catch. rewrite bind_run. unfold send.
    destruct (g _) as [e|r].
    + destruct (Index.is_permission_error e); [|apply change_none].
      assign_both
        {| meetings := meetings w;
           sent := sent w ++ [Index.startTranscriptionCommand env id region language] |}
        id alternative p Hp.
    + assign_both
        {| meetings := meetings w;
           sent := sent w ++ [Index.startTranscriptionCommand env id region language] |}
        id aws p Hp.
  - unfold try_catch. rewrite bind_run. unfold send.
    destruct (g _) as [e|r]; [destruct (Index.is_permission_error e); [|apply change_none]|];
      repeat (rewrite bind_run; erewrite assign_meeting_inherited by exact Hp);
      apply change_none.
Qed.

Lemma stop_transcription_change g id w :
  change (meetings w) (meetings (Index.stop_transcription g id w).2).
Proof.
  unfold Index.stop_transcription. handler_cases w id.
  - rewrite bind_run. unfold send. destruct (g _) as [e|r]; [apply change_none|].
    rewrite bind_run. erewrite assign_meeting_own by exact Hp. simpl.
    by apply change_stop.
  - rewrite bind_run. unfold send. destruct (g _) as [e|r]; [apply change_none|].
    rewrite bind_run. erewrite assign_meeting_inherited by exact Hp. apply change_none.
Qed.

Lemma delete_meeting_post_change g id w :
  change (meetings w) (meetings (Index.delete_meeting_post g id w).2).
Proof.
  unfold Index.delete_meeting_post. handler_cases w id.
  all: rewrite !bind_run; unfold try_catch, send; rewrite bind_run;
    destruct (g _); simpl; apply change_delete.
Qed.

Lemma delete_meeting_change g id w :
  change (meetings w) (meetings (Index.delete_meeting g id w).2).
Proof. apply delete_meeting_post_change. Qed.

Lemma check_transcription_change env g id w :
  change (meetings w) (meetings (Index.check_transcription env g id w).2).
Proof.
  unfold Index.check_transcription. handler_cases w (JStr id).
  all: rewrite !bind_run, meeting_at_run; unfold try_catch, send; rewrite !bind_run;
    destruct (g _); simpl; apply change_none.
Qed.

Lemma start_transcription_alternative_change id w :
  change (meetings w) (meetings (Index.start_transcription_alternative id w).2).
Proof.
  unfold Index.start_transcription_alternative. handler_cases w id.
  - assign_both w id alternative p Hp.
  - repeat (rewrite bind_run; erewrite assign_meeting_inherited by exact Hp).
    apply change_none.
Qed.

Lemma handle_change env g r w : change (meetings w) (meetings (handle env g r w).2).
Proof.
  destruct r; simpl.
  - apply change_none.
  - apply join_meeting_change.
  - apply create_meeting_change.
  - apply start_transcription_change.
  - apply stop_transcription_change.
  - apply delete_meeting_change.
  - apply delete_meeting_post_change.
  - apply check_transcription_change.
  - apply start_transcription_alternative_change.
Qed.

Lemma cleanup_one_change now g id w :
  change (meetings w) (meetings (Index.cleanup_one now g id w).2).
Proof.
  unfold Index.cleanup_one. rewrite bind_run, meeting_at_run.
  destruct (js_get _ _); try apply change_none.
  destruct (Index.expired _ _); [|apply change_none].
  rewrite bind_run. unfold try_catch, send. rewrite bind_run.
  destruct (g _); simpl; apply change_delete.
Qed.

Lemma cleanup_loop_changes now g ids w :
  rtc change (meetings w) (meetings (Index.cleanup_loop now g ids w).2).
Proof.
  revert w. induction ids as [|id ids IH]; intros w; simpl; [done|].
  rewrite bind_run.
  pose proof (cleanup_one_change now g id w) as H1.
  destruct (Index.cleanup_one now g id w) as [[[]|e] w1]; simpl in *.
  - eapply rtc_l; [exact H1|apply IH].
  - by apply rtc_once.
Qed.

Lemma exec_changes env g ev w : rtc change (meetings w) (meetings (exec env g ev w)).
Proof.
  destruct ev as [r|]; simpl.
  - apply rtc_once, handle_change.
  - unfold Index.cleanupExpiredMeetings. rewrite bind_run. simpl.
    apply cleanup_loop_changes.
Qed.

(** A property of sessions that new sessions have and that the four updates
    keep holds of every session in every state the process goes through. *)
Section Invariants.
Variable P : Session → Prop.
Hypothesis P_fresh : ∀ m, fresh_session m → P m.
Hypothesis P_join : ∀ f m, P m → P (set_attendees f m).
Hypothesis P_start : ∀ how m,
  P m → P (set_transcriptionMethod how (set_transcriptionEnabled true m)).
Hypothesis P_stop : ∀ m, P m → P (set_transcriptionEnabled false m).

Lemma change_preserves ms ms' :
  change ms ms' → map_Forall (λ _, P) ms → map_Forall (λ _, P) ms'.
Proof.
  intros Hc HP.
  destruct Hc; [done|apply map_Forall_insert_2; auto..|by apply map_Forall_delete];
    eapply P_join || eapply P_start || eapply P_stop; eapply HP; eassumption.
Qed.

Lemma exec_preserves env g ev w :
  map_Forall (λ _, P) (meetings w) → map_Forall (λ _, P) (meetings (exec env g ev w)).
Proof.
  intros HP. induction (exec_changes env g ev w); eauto using change_preserves.
Qed.

Lemma reachable_all w : reachable w → map_Forall (λ _, P) (meetings w).
Proof.
  induction 1 as [|env g ev w _ IH]; [apply map_Forall_empty|by apply exec_preserves].
Qed.
End Invariants.

(** ** An ISO date string is not a numeric literal *)

Ltac ascii_cases c H :=
  destruct c as [[] [] [] [] [] [] [] []]; try (vm_compute in H; discriminate H).

Lemma digit_char_dec d : dec_digit (Date.digit_char d) = true.
Proof.
  unfold Date.digit_char.
  assert (d mod 10 = 0 ∨ d mod 10 = 1 ∨ d mod 10 = 2 ∨ d mod 10 = 3 ∨ d mod 10 = 4
          ∨ d mod 10 = 5 ∨ d mod 10 = 6 ∨ d mod 10 = 7 ∨ d mod 10 = 8 ∨ d mod 10 = 9)
    as Hd by (pose proof (Z.mod_pos_bound d 10); lia).
  repeat (destruct Hd as [Hd|Hd]; [by rewrite Hd|]). by rewrite Hd.
Qed.

Lemma dec_digit_not_ws c : dec_digit c = true → is_ws c = false.
Proof. intros H. ascii_cases c H; reflexivity. Qed.

Lemma list_ascii_app (a b : string) :
  list_ascii_of_string (a ++ b) = (list_ascii_of_string a ++ list_ascii_of_string b)%list.
Proof. induction a as [|c a IH]; simpl; [done|by rewrite IH]. Qed.

Lemma pad_digits w n :
  Forall (λ c, dec_digit c = true) (list_ascii_of_string (Date.pad w n))
  ∧ length (list_ascii_of_string (Date.pad w n)) = w.
Proof.
  revert n. induction w as [|w IH]; intros n; simpl; [by split|].
  destruct (IH (n / 10)) as [Hf Hl]. rewrite list_ascii_app. simpl. split.
  - apply Forall_app. split; [done|]. repeat constructor. apply digit_char_dec.
  - rewrite length_app, Hl. simpl. lia.
Qed.

Lemma read_digits_run ds tail acc n :
  Forall (λ c, dec_digit c = true) ds →
  ∃ acc', read_digits 10 (ds ++ tail) acc n = read_digits 10 tail acc' (length ds + n).
Proof.
  intros H. revert acc n. induction H as [|c ds Hc _ IH]; intros acc n; simpl; [by eexists|].
  unfold dec_digit in Hc. destruct (digit_of 10 c) as [d|]; [|discriminate].
  destruct (IH (10 * acc + d) (S n)) as [acc' ->]. exists acc'. f_equal. lia.
Qed.

(** digits followed by a dash: the dash is neither a dot nor an exponent *)
Lemma unsigned_decimal_dash c ds rest :
  Forall (λ c, dec_digit c = true) (c :: ds) →
  unsigned_decimal ((c :: ds) ++ "-"%char :: rest)%list = None.
Proof.
  intros H. unfold unsigned_decimal. case_bool_decide as Hinf.
  - simpl in Hinf. injection Hinf as -> _. by inversion H.
  - destruct (read_digits_run (c :: ds) ("-"%char :: rest) 0 0%nat H) as [acc' ->].
    reflexivity.
Qed.

(** two leading digits rule out the [0x], [0o] and [0b] prefixes and the signs *)
Lemma StrNumericLiteral_digits c0 c1 l :
  dec_digit c0 = true → dec_digit c1 = true →
  StrNumericLiteral (c0 :: c1 :: l) = unsigned_decimal (c0 :: c1 :: l).
Proof.
  intros H0 H1. ascii_cases c0 H0; try reflexivity.
  ascii_cases c1 H1; reflexivity.
Qed.

Lemma StrNumericLiteral_year pre c ds rest :
  Forall (λ c, dec_digit c = true) (c :: ds) →
  pre = [] ∧ ds ≠ [] ∨ pre = ["+"%char] ∨ pre = ["-"%char] →
  StrNumericLiteral (pre ++ (c :: ds) ++ "-"%char :: rest)%list = None.
Proof.
  intros Hd [[-> Hne]|[->| ->]].
  - destruct ds as [|c1 ds]; [done|].
    change (StrNumericLiteral (c :: c1 :: (ds ++ "-"%char :: rest)) = None).
    rewrite StrNumericLiteral_digits.
    + apply (unsigned_decimal_dash c (c1 :: ds) rest Hd).
    + by inversion Hd.
    + inversion Hd as [|? ? ? Hd']. by inversion Hd'.
  - change (unsigned_decimal ((c :: ds) ++ "-"%char :: rest) = None).
    apply (unsigned_decimal_dash c ds rest Hd).
  - change (negate <$> unsigned_decimal ((c :: ds) ++ "-"%char :: rest) = None).
    by rewrite (unsigned_decimal_dash c ds rest Hd).
Qed.

Lemma trim_id c l z :
  is_ws c = false → is_ws z = false → trim (c :: l ++ [z])%list = (c :: l ++ [z])%list.
Proof.
  intros Hc Hz. unfold trim. simpl. rewrite Hc.
  change (c :: l ++ [z])%list with ((c :: l) ++ [z])%list.
  rewrite rev_unit. simpl. rewrite Hz.
  change (z :: rev l ++ [c])%list with ((z :: rev l) ++ [c])%list.
  rewrite rev_unit. simpl. by rewrite rev_involutive.
Qed.

Lemma trim_shape pre c ds rest :
  dec_digit c = true →
  pre = [] ∨ pre = ["+"%char] ∨ pre = ["-"%char] →
  trim (pre ++ (c :: ds) ++ "-"%char :: rest ++ ["Z"%char])
  = (pre ++ (c :: ds) ++ "-"%char :: rest ++ ["Z"%char])%list.
Proof.
  intros Hc Hpre. apply dec_digit_not_ws in Hc.
  assert (ds ++ "-"%char :: rest ++ ["Z"%char]
          = (ds ++ "-"%char :: rest) ++ ["Z"%char])%list as E
    by (by rewrite <- app_assoc).
  destruct Hpre as [->|[->| ->]]; simpl; rewrite E.
  - by apply trim_id.
  - by apply (trim_id _ (c :: _)).
  - by apply (trim_id _ (c :: _)).
Qed.

(** The characters of [toISOString t]: an optional sign, the digits of the
    year, a dash, the rest, [Z]. *)
Lemma toISOString_shape t :
  ∃ pre c ds rest,
    list_ascii_of_string (Date.toISOString t)
      = (pre ++ (c :: ds) ++ "-"%char :: rest ++ ["Z"%char])%list
    ∧ Forall (λ c, dec_digit c = true) (c :: ds)
    ∧ (pre = [] ∧ ds ≠ [] ∨ pre = ["+"%char] ∨ pre = ["-"%char]).
Proof.
  unfold Date.toISOString.
  destruct (Date.civil_from_days (Date.Day t)) as [[y m] d].
  set (ms := Date.TimeWithinDay t).
  rewrite list_ascii_app.
  set (tail := (_ ++ _)%string).
  assert (∃ rest, list_ascii_of_string tail = ("-"%char :: rest ++ ["Z"%char])%list)
    as [rest ->].
  { exists (list_ascii_of_string (Date.pad 2 m) ++ "-"%char ::
      list_ascii_of_string (Date.pad 2 d) ++ "T"%char ::
      list_ascii_of_string (Date.pad 2 (ms / 3600000)) ++ ":"%char ::
      list_ascii_of_string (Date.pad 2 (ms / 60000 mod 60)) ++ ":"%char ::
      list_ascii_of_string (Date.pad 2 (ms / 1000 mod 60)) ++ "."%char ::
      list_ascii_of_string (Date.pad 3 (ms mod 1000)))%list.
    subst tail. rewrite !list_ascii_app. simpl.
    repeat (rewrite <- app_assoc; simpl). reflexivity. }
  unfold Date.year_string.
  destruct (Z.leb 0 y && Z.leb y 9999); [|destruct (Z.ltb y 0)].
  - destruct (pad_digits 4 y) as [Hf Hl].
    destruct (list_ascii_of_string (Date.pad 4 y)) as [|c [|c1 ds]]; try discriminate.
    exists [], c, (c1 :: ds), rest. by eauto.
  - destruct (pad_digits 6 (- y)) as [Hf Hl]. rewrite list_ascii_app.
    destruct (list_ascii_of_string (Date.pad 6 (- y))) as [|c ds]; try discriminate.
    exists ["-"%char], c, ds, rest. by eauto.
  - destruct (pad_digits 6 y) as [Hf Hl]. rewrite list_ascii_app.
    destruct (list_ascii_of_string (Date.pad 6 y)) as [|c ds]; try discriminate.
    exists ["+"%char], c, ds, rest. by eauto.
Qed.

Lemma StringToNumber_toISOString t : StringToNumber (Date.toISOString t) = NaN.
Proof.
  unfold StringToNumber.
  destruct (toISOString_shape t) as (pre & c & ds & rest & -> & Hd & Hpre).
  rewrite trim_shape; [|by inversion Hd|by destruct Hpre as [[? _]|[?|?]]; auto].
  pose proof (StrNumericLiteral_year pre c ds (rest ++ ["Z"%char]) Hd Hpre) as HN.
  destruct (pre ++ (c :: ds) ++ "-"%char :: rest ++ ["Z"%char])%list eqn:E.
  - by destruct Hpre as [[-> _]|[->| ->]].
  - by rewrite HN.
Qed.

(** ** The reaper's comparison *)

(** [now - creationTime] is NaN for a stored creation time, and NaN is not
    greater than the threshold. *)
Lemma never_expired now t : Index.expired now (Date.toISOString t) = false.
Proof.
  unfold Index.expired, sub_num_str. by rewrite StringToNumber_toISOString.
Qed.

Lemma cleanup_loop_idle now g ids w :
  map_Forall (λ _, iso_stamped) (meetings w) →
  Forall (λ id, is_Some (meetings w !! id)) ids →
  Index.cleanup_loop now g ids w = (Normal (), w).
Proof.
  intros Hw Hids. induction Hids as [|id ids [m Hm] _ IH]; simpl; [done|].
  rewrite bind_run. unfold Index.cleanup_one.
  rewrite bind_run, meeting_at_run. simpl. rewrite (js_get_own _ _ _ Hm).
  destruct (Hw _ _ Hm) as [t ->]. rewrite never_expired. exact IH.
Qed.

Lemma reaper_idle env g w :
  map_Forall (λ _, iso_stamped) (meetings w) →
  Index.cleanupExpiredMeetings env g w = (Normal (), w).
Proof.
  intros Hw. unfold Index.cleanupExpiredMeetings. rewrite bind_run. simpl.
  apply cleanup_loop_idle; [done|].
  apply Forall_fmap, Forall_forall. intros [id m] Hin. simpl.
  apply elem_of_map_to_list in Hin. eauto.
Qed.

Lemma reachable_iso_stamped w :
  reachable w → map_Forall (λ _, iso_stamped) (meetings w).
Proof.
  apply (reachable_all iso_stamped); try done.
  by intros m (_ & _ & _ & H).
Qed.

(** X11: in no state the process can reach does a reaper cycle remove a
    session or send a command, whatever the clock says. *)
Theorem reaper_never_removes env g w :
  reachable w → Index.cleanupExpiredMeetings env g w = (Normal (), w).
Proof. intros H. by apply reaper_idle, reachable_iso_stamped. Qed.

(** ** The sample states *)

Lemma w_created_meetings : meetings Sample.w_created = {[ Sample.id := Sample.m_created ]}.
Proof. vm_compute. reflexivity. Qed.

Lemma w_started_meetings : meetings Sample.w_started = {[ Sample.id := Sample.m_started ]}.
Proof. vm_compute. reflexivity. Qed.

Lemma w_stopped_meetings :
  meetings Sample.w_stopped
  = {[ Sample.id := set_transcriptionEnabled false Sample.m_started ]}.
Proof. vm_compute. reflexivity. Qed.

(** ** The reaper and the time-to-live *)

(** C1, on the code: the session created at [t0] has the string
    [2023-11-14T22:13:20.000Z] as its creation time; at [t0 + 61 min] the
    difference [now - creationTime] is NaN, so the reaper's test fails: the
    session is in the registry at [t0 + 59 min] and is still there after
    the cycles at [t0 + 59 min] and [t0 + 61 min], which send nothing. *)
Theorem reaper_keeps_session_past_one_hour :
  let w59 := exec (Sample.at_time (Sample.t0 + Sample.minutes 59)) Sample.accepting
               Tick Sample.w_created in
  let w61 := exec (Sample.at_time (Sample.t0 + Sample.minutes 61)) Sample.accepting
               Tick w59 in
  creationTime <$> meetings Sample.w_created !! Sample.id
    = Some "2023-11-14T22:13:20.000Z"
  ∧ sub_num_str (Sample.t0 + Sample.minutes 61) "2023-11-14T22:13:20.000Z" = NaN
  ∧ Index.expired (Sample.t0 + Sample.minutes 61) "2023-11-14T22:13:20.000Z" = false
  ∧ meetings w59 !! Sample.id = Some Sample.m_created
  ∧ meetings w61 !! Sample.id = Some Sample.m_created
  ∧ sent w61 = sent Sample.w_created.
Proof. vm_compute. repeat split; reflexivity. Qed.

(** ** The transcription state *)

(** C2 as stated does not hold: the registry after create-meeting and an
    accepted start-transcription satisfies both halves of the invariant, and
    an accepted stop-transcription leaves a session with
    [transcriptionEnabled = false] whose recorded method is still ['aws']. *)
Lemma stop_breaks_TranscriptionState_invariant :
  TranscriptionState_invariant Sample.w_started
  ∧ ¬ TranscriptionState_invariant
        (exec (Sample.at_time (Sample.t0 + Sample.minutes 5)) Sample.accepting
           (Http (StopTranscription (JStr Sample.id))) Sample.w_started).
Proof.
  split.
  - intros id m. rewrite w_started_meetings.
    intros [_ <-]%lookup_singleton_Some. split; [by left|discriminate].
  - intros H. fold Sample.w_stopped in H.
    destruct (H Sample.id (set_transcriptionEnabled false Sample.m_started)) as [_ Hoff].
    + rewrite w_stopped_meetings. apply lookup_singleton_eq.
    + discriminate (Hoff eq_refl).
Qed.

(** C2, amended: every request of [index.js] and every reaper cycle keeps,
    for every session of the registry, that [transcriptionEnabled = true]
    implies a recorded mode of ProviderManaged or Degraded; a session that
    create-meeting stores has [transcriptionEnabled = false] and mode Off;
    and a stop-transcription the provider accepts sets
    [transcriptionEnabled] to false and leaves the recorded mode as it
    was. *)
Theorem enabled_has_mode_preserved env g ev w :
  enabled_has_mode w →
  enabled_has_mode (exec env g ev w)
  ∧ (∀ uid md,
       ev = Http (CreateMeeting uid) →
       g (Index.createMeetingCommand env) = inr (MeetingReply md) →
       MeetingId md ≠ "__proto__" →
       ∃ m', meetings (exec env g ev w) !! MeetingId md = Some m'
             ∧ transcriptionEnabled m' = false ∧ mode m' = Off)
  ∧ (∀ id m reply,
       ev = Http (StopTranscription id) →
       truthy id = true →
       meetings w !! ToString id = Some m →
       g (StopMeetingTranscriptionCommand id) = inr reply →
       ∃ m', meetings (exec env g ev w) !! ToString id = Some m'
             ∧ transcriptionEnabled m' = false ∧ mode m' = mode m).
Proof.
  intros H. split; [|split].
  - apply (exec_preserves has_mode); try done.
    + intros m (_ & He & _) Ht. congruence.
    + intros how m _ _. destruct how; [by left|by right].
  - intros uid md -> Hg Hid. simpl.
    rewrite (create_meeting_success _ _ _ _ _ Hg Hid). simpl.
    eexists. split; [apply lookup_insert_eq|done].
  - intros id m reply -> Ht Hm Hg. simpl.
    rewrite (stop_success _ _ _ _ _ Ht Hm Hg). simpl.
    eexists. split; [apply lookup_insert_eq|done].
Qed.

Lemma enabled_has_mode_preserved_witness :
  enabled_has_mode Sample.w_started
  ∧ enabled_has_mode Sample.w_stopped
  ∧ ∃ m', meetings Sample.w_stopped !! Sample.id = Some m'
          ∧ transcriptionEnabled m' = false ∧ mode m' = ProviderManaged.
Proof.
  assert (enabled_has_mode Sample.w_started) as H0.
  { intros id m. rewrite w_started_meetings.
    intros [_ <-]%lookup_singleton_Some _. by left. }
  split; [exact H0|].
  destruct (enabled_has_mode_preserved
              (Sample.at_time (Sample.t0 + Sample.minutes 5)) Sample.accepting
              (Http (StopTranscription (JStr Sample.id))) Sample.w_started H0)
    as (H1 & _ & H2).
  split; [exact H1|].
  apply (H2 (JStr Sample.id) Sample.m_started EmptyReply); reflexivity.
Defined.

(** In [server.js] an accepted start breaks even the first half: the flag
    is set and no method is recorded. *)
Lemma server_start_records_no_method :
  ∃ w' m,
    Server.start_transcription (Sample.at_time (Sample.t0 + Sample.minutes 1))
      Sample.accepting (JStr Sample.id) Sample.w_created
      = (Normal (Json 200 (SuccessBody "Transcripción iniciada" None)), w')
    ∧ meetings w' !! Sample.id = Some m
    ∧ transcriptionEnabled m = true ∧ mode m = Off.
Proof.
  eexists _, _. split; [|split].
  - apply (server_start_success _ _ _ _ Sample.m_created EmptyReply); reflexivity.
  - simpl. apply lookup_insert_eq.
  - done.
Qed.

(** ** Joining *)

(** For a session the handler finds and a [userId] that does not pass its
    "already in the meeting" test, when the provider accepts the
    CreateAttendee command of the first call, two join-meeting calls with
    that [userId] send the same answer (same meeting copy, same attendee
    data, same [isCreator]); the first call adds exactly one attendee and
    sends exactly one CreateAttendee command, the second call leaves the
    state as it is and sends nothing, whatever the provider would answer. *)
Lemma join_twice env1 env2 g1 g2 w id uid name1 name2 m reply :
  truthy id = true →
  meetings w !! ToString id = Some m →
  present (js_get (attendees m) (ToString uid)) = false →
  g1 (CreateAttendeeCommand id uid) = inr reply →
  ∃ r w1,
    Index.join_meeting env1 g1 id uid name1 w = (Normal r, w1)
    ∧ Index.join_meeting env2 g2 id uid name2 w1 = (Normal r, w1)
    ∧ r = Json 200 (JoinBody (meetingInfo_of m) (reply_Attendee reply)
                      (strict_eq uid (creatorId m)))
    ∧ attendee_count w (ToString id) = Some (size (attendees m))
    ∧ attendee_count w1 (ToString id) = Some (S (size (attendees m)))
    ∧ sent w1 = (sent w ++ [CreateAttendeeCommand id uid])%list.
Proof.
  intros Ht Hm Ha Hg.
  eexists _, _. split; [apply (join_fresh _ _ _ _ _ _ _ _ Ht Hm Ha Hg)|].
  apply present_absent, js_get_absent in Ha as [Ha _].
  split; [|split; [reflexivity|split; [|split; [|reflexivity]]]].
  - rewrite (join_known env2 g2 _ id uid name2
               (set_attendees <[ToString uid := joined env1 uid name1 reply]> m)
               (joined env1 uid name1 reply) Ht).
    + reflexivity.
    + simpl. apply lookup_insert_eq.
    + simpl. apply lookup_insert_eq.
  - unfold attendee_count. by rewrite Hm.
  - unfold attendee_count. simpl. rewrite lookup_insert_eq. simpl.
    by rewrite map_size_insert_None.
Qed.

Example join_twice_u1 :
  ∃ r w1,
    Index.join_meeting (Sample.at_time (Sample.t0 + Sample.minutes 2)) Sample.accepting
      (JStr Sample.id) (JStr "u1") (JStr "Ana") Sample.w_created = (Normal r, w1)
    ∧ Index.join_meeting (Sample.at_time (Sample.t0 + Sample.minutes 3)) Sample.failing
        (JStr Sample.id) (JStr "u1") JUndefined w1 = (Normal r, w1)
    ∧ r = Json 200 (JoinBody (meetingInfo_of Sample.m_created)
                      (Some (Sample.attendee (JStr "u1"))) false)
    ∧ attendee_count Sample.w_created Sample.id = Some 0%nat
    ∧ attendee_count w1 Sample.id = Some 1%nat
    ∧ sent w1 = (sent Sample.w_created
                   ++ [CreateAttendeeCommand (JStr Sample.id) (JStr "u1")])%list.
Proof.
  apply (join_twice (Sample.at_time (Sample.t0 + Sample.minutes 2))
           (Sample.at_time (Sample.t0 + Sample.minutes 3))
           Sample.accepting Sample.failing Sample.w_created
           (JStr Sample.id) (JStr "u1") (JStr "Ana") JUndefined
           Sample.m_created (AttendeeReply (Sample.attendee (JStr "u1"))));
    reflexivity.
Defined.

(** C3, on the code: on a session nobody has joined, with a provider that
    accepts every command, two join-meeting calls with the [userId]
    ["constructor"] are both answered 200 without attendee data; the
    attendee count stays 0 and no CreateAttendee command is sent, because
    [attendees["constructor"]] is the inherited, truthy [Object]. *)
Theorem join_twice_inherited_name :
  let join := Index.join_meeting (Sample.at_time (Sample.t0 + Sample.minutes 2))
                Sample.accepting (JStr Sample.id) (JStr "constructor") (JStr "Ana") in
  let first := join Sample.w_created in
  let second := join first.2 in
  attendees Sample.m_created !! "constructor" = None
  ∧ first.1 = Normal (Json 200 (JoinBody (meetingInfo_of Sample.m_created) None false))
  ∧ second.1 = first.1
  ∧ attendee_count Sample.w_created Sample.id = Some 0%nat
  ∧ attendee_count second.2 Sample.id = Some 0%nat
  ∧ sent second.2 = sent Sample.w_created
  ∧ sent Sample.w_created = [Index.createMeetingCommand (Sample.at_time Sample.t0)].
Proof. vm_compute. repeat split; reflexivity. Qed.

(** C7: for a session the handler finds and a [userId] with no entry among
    its attendees, when the provider rejects the CreateAttendee command
    [meetings] is after the call what it was before: no attendee entry, the
    same attendee count.  The command is sent and the answer is the 500
    error carrying the provider's message, unless the [userId] names a
    property of [Object.prototype], in which case no command is sent. *)
Theorem join_gateway_failure env g w id uid uname m e :
  truthy id = true →
  meetings w !! ToString id = Some m →
  attendees m !! ToString uid = None →
  g (CreateAttendeeCommand id uid) = inl e →
  ∃ r w',
    Index.join_meeting env g id uid uname w = (Normal r, w')
    ∧ meetings w' = meetings w
    ∧ attendee_count w' (ToString id) = Some (size (attendees m))
    ∧ (inherited (ToString uid) = false →
         r = Json 500 (ErrorBody ("Error al unirse a la reunión: " ++ message e))
         ∧ sent w' = (sent w ++ [CreateAttendeeCommand id uid])%list)
    ∧ (inherited (ToString uid) = true → sent w' = sent w).
Proof.
  intros Ht Hm Ha Hg.
  destruct (inherited (ToString uid)) eqn:Hi.
  - eexists _, w.
    split; [exact (join_inherited_name env g w id uid uname m Ht Hm Ha Hi)|].
    split; [done|]. split; [unfold attendee_count; by rewrite Hm|]. by split.
  - eexists _, _. split.
    + apply (join_rejected env g w id uid uname m e Ht Hm); [|exact Hg].
      unfold js_get. by rewrite Ha, Hi.
    + split; [done|]. split; [unfold attendee_count; simpl; by rewrite Hm|]. by split.
Qed.

Lemma join_gateway_failure_witness :
  ∃ r w',
    Index.join_meeting (Sample.at_time (Sample.t0 + Sample.minutes 2)) Sample.failing
      (JStr Sample.id) (JStr "u1") (JStr "Ana") Sample.w_created = (Normal r, w')
    ∧ meetings w' = meetings Sample.w_created
    ∧ attendee_count w' Sample.id = Some 0%nat
    ∧ (inherited "u1" = false →
         r = Json 500 (ErrorBody "Error al unirse a la reunión: Service unavailable")
         ∧ sent w' = (sent Sample.w_created
                        ++ [CreateAttendeeCommand (JStr Sample.id) (JStr "u1")])%list)
    ∧ (inherited "u1" = true → sent w' = sent Sample.w_created).
Proof.
  apply (join_gateway_failure (Sample.at_time (Sample.t0 + Sample.minutes 2))
           Sample.failing Sample.w_created (JStr Sample.id) (JStr "u1") (JStr "Ana")
           Sample.m_created Sample.unavailable);
    reflexivity.
Defined.

(** C10: a create-meeting whose body has no [userId] stores [undefined] as
    [creatorId]; on that session a join-meeting whose body has no [userId]
    either is answered 200 with [isCreator = true], when the provider
    accepts the attendee, or is answered with the 500 error, when the
    provider rejects it. *)
Theorem creator_undefined env1 g1 w md :
  g1 (Index.createMeetingCommand env1) = inr (MeetingReply md) →
  provider_id (MeetingId md) = true →
  ∃ w1 m,
    Index.create_meeting env1 g1 JUndefined w =
      (Normal (Json 200 (CreatedBody (MeetingId md))), w1)
    ∧ meetings w1 !! MeetingId md = Some m ∧ creatorId m = JUndefined
    ∧ ∀ env2 g2 uname,
        (∀ reply,
           g2 (CreateAttendeeCommand (JStr (MeetingId md)) JUndefined) = inr reply →
           ∃ w2, Index.join_meeting env2 g2 (JStr (MeetingId md)) JUndefined uname w1 =
                   (Normal (Json 200 (JoinBody (meetingInfo_of m)
                                        (reply_Attendee reply) true)), w2))
        ∧ (∀ e,
             g2 (CreateAttendeeCommand (JStr (MeetingId md)) JUndefined) = inl e →
             ∃ w2, Index.join_meeting env2 g2 (JStr (MeetingId md)) JUndefined uname w1 =
                     (Normal (Json 500 (ErrorBody
                        ("Error al unirse a la reunión: " ++ message e))), w2)).
Proof.
  intros Hg1 Hid. apply andb_prop in Hid as [Hne Hinh].
  assert (MeetingId md ≠ "__proto__") as Hproto.
  { intros Heq. rewrite Heq in Hinh. discriminate Hinh. }
  eexists _, (created env1 md JUndefined).
  split; [by apply create_meeting_success|].
  split; [apply lookup_insert_eq|]. split; [done|].
  intros env2 g2 uname. split.
  - intros reply Hg2. eexists.
    rewrite (join_fresh env2 g2 _ (JStr (MeetingId md)) JUndefined uname
               (created env1 md JUndefined) reply Hne);
      [reflexivity|apply lookup_insert_eq|reflexivity|exact Hg2].
  - intros e Hg2. eexists.
    apply (join_rejected env2 g2 _ (JStr (MeetingId md)) JUndefined uname
             (created env1 md JUndefined) e Hne);
      [apply lookup_insert_eq|reflexivity|exact Hg2].
Qed.

Lemma creator_undefined_witness :
  ∃ w1 m,
    Index.create_meeting (Sample.at_time Sample.t0) Sample.accepting JUndefined initial =
      (Normal (Json 200 (CreatedBody Sample.id)), w1)
    ∧ meetings w1 !! Sample.id = Some m ∧ creatorId m = JUndefined
    ∧ ∃ w2,
        Index.join_meeting (Sample.at_time (Sample.t0 + Sample.minutes 2)) Sample.accepting
          (JStr Sample.id) JUndefined JUndefined w1 =
          (Normal (Json 200 (JoinBody (meetingInfo_of m)
                               (Some (Sample.attendee JUndefined)) true)), w2).
Proof.
  destruct (creator_undefined (Sample.at_time Sample.t0) Sample.accepting initial
              Sample.meeting eq_refl eq_refl)
    as (w1 & m & Hc & Hm & Hu & Hj).
  exists w1, m. split; [exact Hc|]. split; [exact Hm|]. split; [exact Hu|].
  apply (proj1 (Hj (Sample.at_time (Sample.t0 + Sample.minutes 2)) Sample.accepting
                  JUndefined) (AttendeeReply (Sample.attendee JUndefined))).
  reflexivity.
Defined.

(** ** Starting and stopping transcription *)

(** In [index.js], for a session the handler finds, a rejection that passes
    the handler's permission test sets [transcriptionEnabled], records the
    method ['alternative'] and is answered with status 403 and
    [alternativeAvailable: true]. *)
Lemma start_permission_error env g w id region language m e :
  truthy id = true →
  meetings w !! ToString id = Some m →
  g (Index.startTranscriptionCommand env id region language) = inl e →
  Index.is_permission_error e = true →
  ∃ m',
    Index.start_transcription env g id region language w =
      (Normal (Json 403
         (PermissionBody "Error de permisos al iniciar transcripción" (message e) true
            "Se ha activado la transcripción alternativa debido a problemas de permisos")),
       {| meetings := <[ToString id := m']> (meetings w);
          sent := sent w ++ [Index.startTranscriptionCommand env id region language] |})
    ∧ transcriptionEnabled m' = true ∧ mode m' = Degraded.
Proof.
  intros Ht Hm Hg He.
  exists (set_transcriptionMethod alternative (set_transcriptionEnabled true m)).
  split; [|done].
  unfold Index.start_transcription. unfold try_catch at 1.
  rewrite bind_run, (not_found_own _ _ _ Ht Hm).
  unfold try_catch. rewrite bind_run. unfold send. rewrite Hg, He.
  pose proof (assign_meeting_twice
    {| meetings := meetings w;
       sent := sent w ++ [Index.startTranscriptionCommand env id region language] |}
    id (set_transcriptionEnabled true) (set_transcriptionMethod alternative) m Hm) as H2.
  rewrite bind_run in H2. rewrite bind_run.
  destruct (assign_meeting id (set_transcriptionEnabled true) _) as [[[]|?] ?]; [|discriminate].
  rewrite bind_run, H2. reflexivity.
Qed.

(** C4, on [server.js]: the provider rejects the start command with
    AccessDeniedException, an error that passes the permission test of
    [index.js]; the handler of [server.js] answers with the 500 error and
    leaves the session with [transcriptionEnabled = false] and no method,
    where the handler of [index.js] answers 403 and records the degraded
    mode. *)
Theorem server_start_permission_error_is_hard :
  let env := Sample.at_time (Sample.t0 + Sample.minutes 1) in
  Index.is_permission_error Sample.denied = true
  ∧ Server.start_transcription env Sample.denying (JStr Sample.id) Sample.w_created =
      (Normal (Json 500 (ErrorBody
         "Error al iniciar transcripción: User is not authorized to perform: chime:StartMeetingTranscription")),
       {| meetings := meetings Sample.w_created;
          sent := sent Sample.w_created
                  ++ [Server.startTranscriptionCommand env (JStr Sample.id)] |})
  ∧ (transcriptionEnabled <$> meetings Sample.w_created !! Sample.id) = Some false
  ∧ (mode <$> meetings Sample.w_created !! Sample.id) = Some Off
  ∧ ∃ w' m',
      Index.start_transcription env Sample.denying (JStr Sample.id) JUndefined JUndefined
        Sample.w_created =
        (Normal (Json 403
           (PermissionBody "Error de permisos al iniciar transcripción"
              (message Sample.denied) true
              "Se ha activado la transcripción alternativa debido a problemas de permisos")),
         w')
      ∧ meetings w' !! Sample.id = Some m'
      ∧ transcriptionEnabled m' = true ∧ mode m' = Degraded.
Proof.
  intros env. split; [reflexivity|]. split; [|split; [reflexivity|split; [reflexivity|]]].
  - apply (server_start_failure env Sample.denying Sample.w_created (JStr Sample.id)
             Sample.m_created Sample.denied); reflexivity.
  - destruct (start_permission_error env Sample.denying Sample.w_created (JStr Sample.id)
                JUndefined JUndefined Sample.m_created Sample.denied)
      as (m' & Hrun & Hen & Hmode); try reflexivity.
    eexists _, m'. split; [exact Hrun|]. split; [apply lookup_insert_eq|done].
Qed.

(** C5: for a session the handler finds, with transcription enabled: when
    the provider rejects the stop command the answer is the 500 error
    carrying the provider's message and [meetings] is what it was, so the
    flag is still true; and the flag is false after the call only if the
    provider accepted the command. *)
Theorem stop_failure_keeps_enabled g w id m :
  truthy id = true →
  meetings w !! ToString id = Some m →
  transcriptionEnabled m = true →
  (∀ e, g (StopMeetingTranscriptionCommand id) = inl e →
     Index.stop_transcription g id w =
       (Normal (Json 500 (ErrorBody ("Error al detener transcripción: " ++ message e))),
        {| meetings := meetings w;
           sent := sent w ++ [StopMeetingTranscriptionCommand id] |}))
  ∧ (∀ m', meetings (Index.stop_transcription g id w).2 !! ToString id = Some m' →
       transcriptionEnabled m' = false →
       ∃ reply, g (StopMeetingTranscriptionCommand id) = inr reply).
Proof.
  intros Ht Hm Hen. split.
  - intros e Hg. by apply (stop_failure g w id m e).
  - intros m' Hm' Hoff.
    destruct (g (StopMeetingTranscriptionCommand id)) as [e|reply] eqn:Hg; [|by eexists].
    rewrite (stop_failure g w id m e Ht Hm Hg) in Hm'. simpl in Hm'. congruence.
Qed.

Lemma stop_failure_keeps_enabled_witness :
  (transcriptionEnabled <$> meetings Sample.w_started !! Sample.id) = Some true
  ∧ Index.stop_transcription Sample.failing (JStr Sample.id) Sample.w_started =
      (Normal (Json 500 (ErrorBody "Error al detener transcripción: Service unavailable")),
       {| meetings := meetings Sample.w_started;
          sent := sent Sample.w_started
                  ++ [StopMeetingTranscriptionCommand (JStr Sample.id)] |}).
Proof.
  split; [reflexivity|].
  apply (proj1 (stop_failure_keeps_enabled Sample.failing Sample.w_started
                  (JStr Sample.id) Sample.m_started eq_refl eq_refl eq_refl)
           Sample.unavailable).
  reflexivity.
Defined.

(** ** Creating and removing *)

(** C8: create-meeting is all or nothing.  When the provider rejects the
    CreateMeeting command the answer is the 500 error carrying the
    provider's message and [meetings] is what it was.  When the provider
    answers with a meeting, the session is stored under the provider's id
    with no attendees and transcription disabled, and list-meetings, run
    next, has a projection for that id, each with [attendeeCount = 0] and
    [transcriptionEnabled = false]. *)
Theorem create_all_or_nothing env g uid w :
  (∀ e, g (Index.createMeetingCommand env) = inl e →
     Index.create_meeting env g uid w =
       (Normal (Json 500 (ErrorBody ("Error al crear reunión: " ++ message e))),
        {| meetings := meetings w; sent := sent w ++ [Index.createMeetingCommand env] |}))
  ∧ (∀ md, g (Index.createMeetingCommand env) = inr (MeetingReply md) →
       MeetingId md ≠ "__proto__" →
       ∃ w' m l,
         Index.create_meeting env g uid w =
           (Normal (Json 200 (CreatedBody (MeetingId md))), w')
         ∧ meetings w' !! MeetingId md = Some m
         ∧ attendees m = ∅ ∧ transcriptionEnabled m = false
         ∧ Index.list_meetings w' = (Normal (Json 200 (MeetingList l)), w')
         ∧ (∃ p, p ∈ l ∧ p_meetingId p = MeetingId md)
         ∧ ∀ p, p ∈ l → p_meetingId p = MeetingId md →
             p_attendeeCount p = 0%nat ∧ p_transcriptionEnabled p = false).
Proof.
  split; [apply create_meeting_failure|].
  intros md Hg Hid. eexists _, (created env md uid), _.
  split; [by apply create_meeting_success|].
  split; [apply lookup_insert_eq|].
  split; [done|]. split; [done|]. split; [reflexivity|]. simpl. split.
  - exists (Index.project (MeetingId md, created env md uid)). split; [|done].
    apply list_elem_of_fmap. eexists. split; [done|].
    apply elem_of_map_to_list, lookup_insert_eq.
  - intros p Hp Hpid. apply list_elem_of_fmap in Hp as ([id m] & -> & Hin).
    apply elem_of_map_to_list in Hin. simpl in Hpid. subst id.
    rewrite lookup_insert_eq in Hin. by injection Hin as <-.
Qed.

Lemma create_all_or_nothing_witness :
  Index.create_meeting (Sample.at_time Sample.t0) Sample.failing (JStr "u0") initial =
    (Normal (Json 500 (ErrorBody "Error al crear reunión: Service unavailable")),
     {| meetings := ∅;
        sent := [Index.createMeetingCommand (Sample.at_time Sample.t0)] |})
  ∧ ∃ w' m l,
      Index.create_meeting (Sample.at_time Sample.t0) Sample.accepting (JStr "u0") initial =
        (Normal (Json 200 (CreatedBody Sample.id)), w')
      ∧ meetings w' !! Sample.id = Some m
      ∧ attendees m = ∅ ∧ transcriptionEnabled m = false
      ∧ Index.list_meetings w' = (Normal (Json 200 (MeetingList l)), w')
      ∧ (∃ p, p ∈ l ∧ p_meetingId p = Sample.id)
      ∧ ∀ p, p ∈ l → p_meetingId p = Sample.id →
          p_attendeeCount p = 0%nat ∧ p_transcriptionEnabled p = false.
Proof.
  split.
  - apply (proj1 (create_all_or_nothing (Sample.at_time Sample.t0) Sample.failing
                    (JStr "u0") initial) Sample.unavailable).
    reflexivity.
  - apply (proj2 (create_all_or_nothing (Sample.at_time Sample.t0) Sample.accepting
                    (JStr "u0") initial) Sample.meeting).
    + reflexivity.
    + discriminate.
Defined.

(** C6: for a session stored under an id of the provider, the DELETE route
    sends the DeleteMeeting command, answers with the success message
    whether the provider accepts or rejects it, and drops the entry; after
    that every request naming this id (join, start, stop, both removals,
    check, alternative start) is answered 404 and changes nothing. *)
Theorem remove_terminal g w id m :
  provider_id id = true →
  meetings w !! id = Some m →
  ∃ w',
    Index.delete_meeting g id w =
      (Normal (Json 200 (SuccessBody "Reunión eliminada correctamente" None)), w')
    ∧ sent w' = (sent w ++ [DeleteMeetingCommand (JStr id)])%list
    ∧ meetings w' = delete id (meetings w)
    ∧ meetings w' !! id = None
    ∧ ∀ env g' r, request_meetingId r = Some (JStr id) →
        handle env g' r w' = (Normal (Json 404 (ErrorBody "Reunión no encontrada")), w').
Proof.
  intros Hid Hm. apply andb_prop in Hid as [Hne Hinh].
  eexists. split; [exact (delete_meeting_present g w id m Hne Hm)|].
  split; [done|]. split; [done|]. split; [apply lookup_delete_eq|].
  intros env g' r Hr. apply (handle_not_found _ _ _ _ _ Hr).
  simpl. unfold js_get. rewrite lookup_delete_eq.
  by apply negb_true_iff in Hinh as ->.
Qed.

Lemma remove_terminal_witness :
  ∃ w',
    Index.delete_meeting Sample.failing Sample.id Sample.w_created =
      (Normal (Json 200 (SuccessBody "Reunión eliminada correctamente" None)), w')
    ∧ sent w' = (sent Sample.w_created ++ [DeleteMeetingCommand (JStr Sample.id)])%list
    ∧ meetings w' = delete Sample.id (meetings Sample.w_created)
    ∧ meetings w' !! Sample.id = None
    ∧ ∀ env g' r, request_meetingId r = Some (JStr Sample.id) →
        handle env g' r w' = (Normal (Json 404 (ErrorBody "Reunión no encontrada")), w').
Proof.
  apply (remove_terminal Sample.failing Sample.w_created Sample.id Sample.m_created);
    reflexivity.
Defined.

(** C9: for every registry, every provider and every [meetingId] the route
    can carry, [DELETE /delete-meeting/:meetingId] and [POST /delete-meeting]
    with that [meetingId] in the body send the same answer, send the same
    commands and leave the same registry: 404 and no change under the same
    not-found test, otherwise one DeleteMeeting command whose outcome is
    ignored, the entry dropped and the success message. *)
Theorem delete_routes_agree g w (meetingId : string) :
  Index.delete_meeting g meetingId w = Index.delete_meeting_post g (JStr meetingId) w
  ∧ Index.delete_meeting_post g (JStr meetingId) w =
      if negb (truthy (JStr meetingId))
         || negb (present (js_get (meetings w) meetingId))
      then (Normal (Json 404 (ErrorBody "Reunión no encontrada")), w)
      else (Normal (Json 200 (SuccessBody "Reunión eliminada correctamente" None)),
            {| meetings := delete meetingId (meetings w);
               sent := sent w ++ [DeleteMeetingCommand (JStr meetingId)] |}).
Proof.
  split; [reflexivity|].
  unfold Index.delete_meeting_post. unfold try_catch at 1.
  rewrite bind_run, not_found_run.
  change (ToString (JStr meetingId)) with meetingId.
  destruct (negb (truthy (JStr meetingId)) || negb (present (js_get (meetings w) meetingId)));
    [reflexivity|].
  rewrite !bind_run. unfold try_catch, send. rewrite bind_run.
  destruct (g (DeleteMeetingCommand (JStr meetingId))); reflexivity.
Qed.

(** ** What a request can and cannot do *)

Ltac effect_start :=
  match goal with
  | |- effect ?env ?r ?id ?w (?h).2 =>
      let HH := fresh in
      cut (∀ res, h = res → effect env r id w res.2);
      [intros HH; exact (HH _ eq_refl)|intros ?]
  end.

Ltac effect_done :=
  intros <-; simpl;
  split;
  [ first [ apply touch_none | by eapply touch_join | by eapply touch_start
          | by eapply touch_stop | apply touch_delete ]
  | first [ by left | right; eexists; split; reflexivity ] ].

Ltac effect_cases w id :=
  unfold try_catch at 1; rewrite bind_run, not_found_run;
  let p := fresh "p" in let Hp := fresh "Hp" in
  destruct (js_get (meetings w) (ToString id)) as [p| |] eqn:Hp;
  [apply js_get_own_inv in Hp| |];
  (destruct (truthy id); simpl; [|effect_done]);
  [ | |effect_done].

Ltac assign_both' w id how p Hp :=
  let H2 := fresh "H2" in
  pose proof (assign_meeting_twice w id (set_transcriptionEnabled true)
                (set_transcriptionMethod how) p Hp) as H2;
  rewrite bind_run in H2; rewrite bind_run;
  destruct (assign_meeting id (set_transcriptionEnabled true) _) as [[[]|?] ?];
  [|discriminate];
  rewrite bind_run, H2; effect_done.

Lemma join_meeting_effect env g id uid uname w :
  effect env (JoinMeeting id uid uname) id w (Index.join_meeting env g id uid uname w).2.
Proof.
  effect_start. unfold Index.join_meeting. effect_cases w id.
  - rewrite bind_run, meeting_at_run, (js_get_own _ _ _ Hp).
    destruct (js_get (attendees p) (ToString uid)) eqn:Ha; try effect_done.
    apply js_get_absent in Ha as [Ha _].
    rewrite bind_run. unfold send. destruct (g _) as [e|r]; [effect_done|].
    rewrite bind_run. erewrite assign_meeting_own by exact Hp.
    rewrite bind_run, meeting_at_run. simpl. rewrite js_get_insert. effect_done.
  - rewrite bind_run, meeting_at_run. simpl. rewrite Hp. effect_done.
Qed.

Lemma start_transcription_effect env g id region language w :
  effect env (StartTranscription id region language) id w
    (Index.start_transcription env g id region language w).2.
Proof.
  effect_start. unfold Index.start_transcription. effect_cases w id.
  - unfold try_catch. rewrite bind_run. unfold send.
    destruct (g _) as [e|r].
    + destruct (Index.is_permission_error e); [|effect_done].
      assign_both'
        {| meetings := meetings w;
           sent := sent w ++ [Index.startTranscriptionCommand env id region language] |}
        id alternative p Hp.
    + assign_both'
        {| meetings := meetings w;
           sent := sent w ++ [Index.startTranscriptionCommand env id region language] |}
        id aws p Hp.
  - unfold try_catch. rewrite bind_run. unfold send.
    destruct (g _) as [e|r]; [destruct (Index.is_permission_error e); [|effect_done]|];
      repeat (rewrite bind_run; erewrite assign_meeting_inherited by exact Hp);
      effect_done.
Qed.

Lemma stop_transcription_effect g env id w :
  effect env (StopTranscription id) id w (Index.stop_transcription g id w).2.
Proof.
  effect_start. unfold Index.stop_transcription. effect_cases w id.
  - rewrite bind_run. unfold send. destruct (g _) as [e|r]; [effect_done|].
    rewrite bind_run. erewrite assign_meeting_own by exact Hp. effect_done.
  - rewrite bind_run. unfold send. destruct (g _) as [e|r]; [effect_done|].
    rewrite bind_run. erewrite assign_meeting_inherited by exact Hp. effect_done.
Qed.

Lemma delete_meeting_post_effect g env id w :
  effect env (DeleteMeetingPost id) id w (Index.delete_meeting_post g id w).2.
Proof.
  effect_start. unfold Index.delete_meeting_post. effect_cases w id.
  all: rewrite !bind_run; unfold try_catch, send; rewrite bind_run;
    destruct (g _); effect_done.
Qed.

Lemma delete_meeting_effect g env id w :
  effect env (DeleteMeeting id) (JStr id) w (Index.delete_meeting g id w).2.
Proof. apply (delete_meeting_post_effect g env (JStr id) w). Qed.

Lemma check_transcription_effect env g id w :
  effect env (CheckTranscription id) (JStr id) w (Index.check_transcription env g id w).2.
Proof.
  effect_start. unfold Index.check_transcription. effect_cases w (JStr id).
  all: rewrite !bind_run, meeting_at_run; unfold try_catch, send; rewrite !bind_run;
    destruct (g _); effect_done.
Qed.

Lemma start_transcription_alternative_effect env id w :
  effect env (StartTranscriptionAlternative id) id w
    (Index.start_transcription_alternative id w).2.
Proof.
  effect_start. unfold Index.start_transcription_alternative. effect_cases w id.
  - assign_both' w id alternative p Hp.
  - repeat (rewrite bind_run; erewrite assign_meeting_inherited by exact Hp).
    effect_done.
Qed.

Lemma handle_effect env g r w id :
  request_meetingId r = Some id → effect env r id w (handle env g r w).2.
Proof.
  intros Hr. destruct r; simpl in Hr; try discriminate; injection Hr as <-; simpl.
  - apply join_meeting_effect.
  - apply start_transcription_effect.
  - apply stop_transcription_effect.
  - apply delete_meeting_effect.
  - apply delete_meeting_post_effect.
  - apply check_transcription_effect.
  - apply start_transcription_alternative_effect.
Qed.

Lemma touch_other k ms ms' j : touch k ms ms' → j ≠ k → ms' !! j = ms !! j.
Proof.
  intros [] Hj; try done; try (by rewrite lookup_insert_ne).
  by rewrite lookup_delete_ne.
Qed.

Lemma touch_no_new k ms ms' : touch k ms ms' → ms !! k = None → ms' !! k = None.
Proof.
  intros [] Hk; try done; try congruence. apply lookup_delete_eq.
Qed.

Lemma touch_identity k ms ms' m m' :
  touch k ms ms' → ms !! k = Some m → ms' !! k = Some m' →
  meetingId m' = meetingId m ∧ Meeting m' = Meeting m
  ∧ creationTime m' = creationTime m ∧ creatorId m' = creatorId m
  ∧ attendees m ⊆ attendees m'.
Proof.
  intros Ht Hm Hm'. destruct Ht as [|m0 u a H0 Hu _|m0 how H0|m0 H0|].
  - rewrite Hm in Hm'. by injection Hm' as <-.
  - rewrite lookup_insert_eq in Hm'. injection Hm' as <-.
    rewrite Hm in H0. injection H0 as <-. repeat split; try done.
    simpl. by apply insert_subseteq.
  - rewrite lookup_insert_eq in Hm'. injection Hm' as <-.
    rewrite Hm in H0. by injection H0 as <-.
  - rewrite lookup_insert_eq in Hm'. injection Hm' as <-.
    rewrite Hm in H0. by injection H0 as <-.
  - by rewrite lookup_delete_eq in Hm'.
Qed.

(** X3: a request that names a session (join, start, stop, both removals,
    check, alternative start) leaves every other entry of the registry as it
    is, and adds no entry under the name it carries. *)
Theorem request_leaves_other_sessions env g r w id :
  request_meetingId r = Some id →
  (∀ j, j ≠ ToString id → meetings (handle env g r w).2 !! j = meetings w !! j)
  ∧ (meetings w !! ToString id = None →
     meetings (handle env g r w).2 !! ToString id = None).
Proof.
  intros Hr. destruct (handle_effect env g r w id Hr) as [Ht _]. split.
  - intros j Hj. by apply (touch_other _ _ _ _ Ht).
  - by apply touch_no_new.
Qed.

(** X4: when the session a request names is still in the registry after
    the request, its [meetingId], [Meeting], [creationTime] and [creatorId]
    are what they were, and no attendee entry has been removed or replaced. *)
Theorem session_identity_kept env g r w id m m' :
  request_meetingId r = Some id →
  meetings w !! ToString id = Some m →
  meetings (handle env g r w).2 !! ToString id = Some m' →
  meetingId m' = meetingId m ∧ Meeting m' = Meeting m
  ∧ creationTime m' = creationTime m ∧ creatorId m' = creatorId m
  ∧ attendees m ⊆ attendees m'.
Proof.
  intros Hr. destruct (handle_effect env g r w id Hr) as [Ht _].
  by apply touch_identity.
Qed.

Lemma create_meeting_logs env g uid w :
  logs (Some (Index.createMeetingCommand env)) w (Index.create_meeting env g uid w).2.
Proof.
  unfold Index.create_meeting, try_catch. rewrite bind_run. unfold send.
  destruct (g _) as [e|[md| |]]; simpl; try (right; eexists; split; reflexivity).
  rewrite bind_run. unfold add_meeting. rewrite bind_run. simpl.
  destruct (String.eqb _ _); simpl; right; eexists; split; reflexivity.
Qed.

(** X5: a request sends at most one command to the provider, and only the
    command of its route; list-meetings and start-transcription-alternative
    send nothing; the log of earlier commands is never rewritten. *)
Theorem request_sends_at_most_its_command env g r w :
  logs (command_of env r) w (handle env g r w).2.
Proof.
  destruct (request_meetingId r) as [id|] eqn:Hr.
  - by destruct (handle_effect env g r w id Hr).
  - destruct r; try discriminate; simpl.
    + by left.
    + apply create_meeting_logs.
Qed.

(** X1: each of the seven routes that take a [meetingId] answers 404 when
    the [meetingId] is falsy or names no property of [meetings]; it sends
    nothing to the provider and leaves the state as it is. *)
Theorem missing_meeting_is_404 env g r w id :
  request_meetingId r = Some id →
  truthy id = false ∨ js_get (meetings w) (ToString id) = Absent →
  handle env g r w = (Normal (Json 404 (ErrorBody "Reunión no encontrada")), w).
Proof.
  intros Hr Hmiss.
  assert (not_found id w = (Normal true, w)) as Hnf.
  { rewrite not_found_run. destruct Hmiss as [-> | ->]; [done|].
    simpl. by rewrite orb_true_r. }
  destruct r; simpl in Hr; try discriminate; injection Hr as <-; simpl;
    [ unfold Index.join_meeting | unfold Index.start_transcription
    | unfold Index.stop_transcription | unfold Index.delete_meeting
    | unfold Index.delete_meeting_post | unfold Index.check_transcription
    | unfold Index.start_transcription_alternative ];
    unfold try_catch at 1; rewrite bind_run, Hnf; reflexivity.
Qed.

(** X2: list-meetings never fails, sends nothing and changes nothing; it
    answers with exactly one projection per session, carrying the session's
    creation time, number of attendees and transcription flag, and the
    external id or ['Sin ID externo'] when that is falsy; on an empty
    registry the list is empty. *)
Theorem list_meetings_projects w :
  ∃ l,
    Index.list_meetings w = (Normal (Json 200 (MeetingList l)), w)
    ∧ length l = size (meetings w)
    ∧ (meetings w = ∅ → l = [])
    ∧ (∀ id m, meetings w !! id = Some m →
         ∃ p, p ∈ l ∧ p_meetingId p = id
              ∧ p_creationTime p = creationTime m
              ∧ p_attendeeCount p = size (attendees m)
              ∧ p_transcriptionEnabled p = transcriptionEnabled m
              ∧ p_externalMeetingId p =
                  (if truthy (ExternalMeetingId (Meeting m))
                   then ExternalMeetingId (Meeting m) else JStr "Sin ID externo"))
    ∧ (∀ p, p ∈ l → is_Some (meetings w !! p_meetingId p)).
Proof.
  eexists. split; [reflexivity|]. split; [|split; [|split]].
  - by rewrite length_fmap, length_map_to_list.
  - intros ->. by rewrite map_to_list_empty.
  - intros id m Hm. exists (Index.project (id, m)). split.
    + apply list_elem_of_fmap. exists (id, m). split; [done|].
      by apply elem_of_map_to_list.
    + simpl. by rewrite orb_false_r.
  - intros p Hp. apply list_elem_of_fmap in Hp as ([id m] & -> & Hin).
    apply elem_of_map_to_list in Hin. simpl. eauto.
Qed.

(** X6: start-transcription of [index.js], on a session the handler finds:
    when the provider accepts the command the flag is set, the method
    ['aws'] is recorded and the answer is 200; when the provider rejects it
    with an error that does not pass the permission test, the answer is the
    500 error carrying the provider's message and [meetings] is unchanged. *)
Theorem start_accepted_or_failed env g w id region language m :
  truthy id = true →
  meetings w !! ToString id = Some m →
  let cmd := Index.startTranscriptionCommand env id region language in
  (∀ reply, g cmd = inr reply →
     Index.start_transcription env g id region language w =
       (Normal (Json 200 (SuccessBody "Transcripción iniciada correctamente" None)),
        {| meetings :=
             <[ToString id :=
                 set_transcriptionMethod aws (set_transcriptionEnabled true m)]>
               (meetings w);
           sent := sent w ++ [cmd] |}))
  ∧ (∀ e, g cmd = inl e → Index.is_permission_error e = false →
       Index.start_transcription env g id region language w =
         (Normal (Json 500 (ErrorBody ("Error al iniciar transcripción: " ++ message e))),
          {| meetings := meetings w; sent := sent w ++ [cmd] |})).
Proof.
  intros Ht Hm cmd. split.
  - intros reply Hg.
    unfold Index.start_transcription. unfold try_catch at 1.
    rewrite bind_run, (not_found_own _ _ _ Ht Hm).
    unfold try_catch. rewrite bind_run. unfold send. fold cmd. rewrite Hg.
    pose proof (assign_meeting_twice
      {| meetings := meetings w; sent := sent w ++ [cmd] |}
      id (set_transcriptionEnabled true) (set_transcriptionMethod aws) m Hm) as H2.
    rewrite bind_run in H2. rewrite bind_run.
    destruct (assign_meeting id (set_transcriptionEnabled true) _) as [[[]|?] ?]; [|discriminate].
    rewrite bind_run, H2. reflexivity.
  - intros e Hg He.
    unfold Index.start_transcription. unfold try_catch at 1.
    rewrite bind_run, (not_found_own _ _ _ Ht Hm).
    unfold try_catch. rewrite bind_run. unfold send. fold cmd. rewrite Hg, He.
    reflexivity.
Qed.

(** X7: start-transcription-alternative never contacts the provider; on a
    session the handler finds it sets the flag, records the method
    ['alternative'] and answers 200. *)
Theorem start_alternative_is_local w id :
  sent (Index.start_transcription_alternative id w).2 = sent w
  ∧ ∀ m, truthy id = true → meetings w !! ToString id = Some m →
      Index.start_transcription_alternative id w =
        (Normal (Json 200 (SuccessBody "Transcripción alternativa iniciada"
           (Some "Esta es una solución alternativa mientras se configuran los permisos correctos en AWS"))),
         {| meetings :=
              <[ToString id :=
                  set_transcriptionMethod alternative (set_transcriptionEnabled true m)]>
                (meetings w);
            sent := sent w |}).
Proof.
  split.
  - destruct (start_transcription_alternative_effect
                {| now := 0; uuid1 := EmptyString; uuid2 := EmptyString;
                   AWS_REGION := JUndefined |} id w) as [_ [H|(c & Hc & _)]];
      [done|discriminate].
  - intros m Ht Hm. unfold Index.start_transcription_alternative, try_catch.
    rewrite bind_run, (not_found_own _ _ _ Ht Hm).
    pose proof (assign_meeting_twice w id (set_transcriptionEnabled true)
                  (set_transcriptionMethod alternative) m Hm) as H2.
    rewrite bind_run in H2. rewrite bind_run.
    destruct (assign_meeting id (set_transcriptionEnabled true) _) as [[[]|?] ?]; [|discriminate].
    rewrite bind_run, H2. reflexivity.
Qed.

(** X8: check-transcription, on a session the handler finds, answers 200
    with the stored flag as [local] and leaves [meetings] unchanged, whether
    the provider answers or rejects the GetMeeting command; [chime] is true
    exactly when the provider answers with a meeting whose transcription
    status is ['Active']. *)
Theorem check_transcription_reads env g w id m :
  truthy (JStr id) = true →
  meetings w !! id = Some m →
  ∃ chime,
    Index.check_transcription env g id w =
      (Normal (Json 200 (StatusBody id (transcriptionEnabled m) chime
                           (Date.toISOString (now env)))),
       {| meetings := meetings w; sent := sent w ++ [GetMeetingCommand (JStr id)] |})
    ∧ (chime = true ↔
       ∃ md, g (GetMeetingCommand (JStr id)) = inr (MeetingReply md)
             ∧ TranscriptionStatus md = JStr "Active").
Proof.
  intros Ht Hm. unfold Index.check_transcription. unfold try_catch at 1.
  rewrite bind_run, (not_found_own w (JStr id) m Ht Hm).
  rewrite bind_run, (meeting_at_own w (JStr id) m Hm).
  rewrite bind_run. unfold try_catch. rewrite bind_run. unfold send.
  rewrite orb_false_r.
  destruct (g (GetMeetingCommand (JStr id))) as [e|[md| |]] eqn:Hg; simpl.
  - exists false. split; [reflexivity|]. split; [done|]. by intros (md & ? & _).
  - exists (strict_eq (TranscriptionStatus md) (JStr "Active")).
    split; [reflexivity|]. unfold strict_eq. rewrite bool_decide_eq_true. split.
    + intros H. by exists md.
    + by intros (md' & [= <-] & H).
  - exists false. split; [reflexivity|]. split; [done|]. by intros (md & ? & _).
  - exists false. split; [reflexivity|]. split; [done|]. by intros (md & ? & _).
Qed.

Lemma languageMapping_lookup k l : Index.languageMapping !! k = Some l → l = "es-US".
Proof.
  unfold Index.languageMapping.
  intros [[_ <-]|[_ H]]%lookup_insert_Some; [done|].
  by apply lookup_singleton_Some in H as [_ <-].
Qed.

Lemma languageMapping_other k :
  k ≠ "es-ES" → k ≠ "es" → Index.languageMapping !! k = None.
Proof.
  intros H1 H2. unfold Index.languageMapping.
  rewrite lookup_insert_ne by done. by apply lookup_singleton_ne.
Qed.

(** X9: the language code start-transcription sends is never falsy;
    [es-ES] and [es] become [es-US]; a missing, null, false or empty
    language becomes [es-US]; any other truthy language passes through
    unchanged, unless it names a property of [Object.prototype], in which
    case the code sent is that built-in and not a string. *)
Theorem mappedLanguage_cases language :
  truthy (Index.mappedLanguage language) = true
  ∧ (ToString language = "es-ES" ∨ ToString language = "es" →
     Index.mappedLanguage language = JStr "es-US")
  ∧ (truthy language = false → Index.mappedLanguage language = JStr "es-US")
  ∧ (truthy language = true →
     ToString language ≠ "es-ES" → ToString language ≠ "es" →
     inherited (ToString language) = false →
     Index.mappedLanguage language = language)
  ∧ (ToString language ≠ "es-ES" → ToString language ≠ "es" →
     inherited (ToString language) = true →
     Index.mappedLanguage language = JBuiltin (ToString language)).
Proof.
  unfold Index.mappedLanguage, js_get.
  split; [|split; [|split; [|split]]].
  - destruct (Index.languageMapping !! ToString language) as [l|] eqn:Hl.
    + by rewrite (languageMapping_lookup _ _ Hl).
    + destruct (inherited (ToString language)); [done|].
      unfold js_or. change (truthy JUndefined) with false. cbv beta iota.
      by destruct (truthy language) eqn:Ht; rewrite ?Ht.
  - intros [-> | ->]; reflexivity.
  - intros Hf. destruct language as [| |[]|s|]; try discriminate; try reflexivity.
    simpl in Hf. by apply negb_false_iff, String.eqb_eq in Hf as ->.
  - intros Ht H1 H2 Hi. rewrite (languageMapping_other _ H1 H2), Hi.
    unfold js_or. change (truthy JUndefined) with false. cbv beta iota.
    by rewrite Ht.
  - intros H1 H2 Hi. by rewrite (languageMapping_other _ H1 H2), Hi.
Qed.

Lemma cleanup_one_present now g id w m :
  meetings w !! id = Some m →
  Index.cleanup_one now g id w =
    (Normal (),
     if Index.expired now (creationTime m)
     then {| meetings := delete id (meetings w);
             sent := sent w ++ [DeleteMeetingCommand (JStr id)] |}
     else w).
Proof.
  intros Hm. unfold Index.cleanup_one.
  rewrite bind_run, (meeting_at_own w (JStr id) m Hm).
  destruct (Index.expired _ _); [|reflexivity].
  rewrite bind_run. unfold try_catch, send. rewrite bind_run.
  destruct (g _); reflexivity.
Qed.

Lemma deletions_delete now ms id ids :
  id ∉ ids → deletions now (delete id ms) ids = deletions now ms ids.
Proof.
  intros Hid. unfold deletions. f_equal.
  induction ids as [|k ids IH]; [done|].
  apply not_elem_of_cons in Hid as [Hk Hid].
  assert (expired_entry now (delete id ms) k = expired_entry now ms k) as Hex
    by (unfold expired_entry; by rewrite (lookup_delete_ne ms id k)).
  by rewrite !filter_cons, Hex, (IH Hid).
Qed.

Lemma cleanup_loop_spec now g ids w :
  NoDup ids →
  Forall (λ id, is_Some (meetings w !! id)) ids →
  ∃ w',
    Index.cleanup_loop now g ids w = (Normal (), w')
    ∧ (∀ k, meetings w' !! k =
            if bool_decide (k ∈ ids) && expired_entry now (meetings w) k
            then None else meetings w !! k)
    ∧ sent w' = (sent w ++ deletions now (meetings w) ids)%list.
Proof.
  intros Hnd. revert w. induction Hnd as [|id ids Hid Hnd IH]; intros w Hall.
  - exists w. split; [done|]. split; [done|]. unfold deletions. simpl.
    by rewrite app_nil_r.
  - apply Forall_cons in Hall as [[m Hm] Hall]. simpl.
    rewrite bind_run, (cleanup_one_present now g id w m Hm).
    assert (expired_entry now (meetings w) id = Index.expired now (creationTime m)) as Hex
      by (unfold expired_entry; by rewrite Hm).
    destruct (Index.expired now (creationTime m)) eqn:He.
    + destruct (IH {| meetings := delete id (meetings w);
                      sent := sent w ++ [DeleteMeetingCommand (JStr id)] |})
        as (w' & Hrun & Hlook & Hsent).
      { simpl. apply Forall_forall. intros k Hk.
        rewrite lookup_delete_ne by (intros ->; done).
        by apply (proj1 (Forall_forall _ _) Hall). }
      exists w'. split; [exact Hrun|]. simpl in Hlook, Hsent. split.
      * intros k. rewrite Hlook. destruct (decide (k = id)) as [->|Hk].
        -- rewrite (bool_decide_eq_false_2 (id ∈ ids)) by done.
           rewrite (bool_decide_eq_true_2 (id ∈ id :: ids)) by apply list_elem_of_here.
           simpl. rewrite Hex. apply lookup_delete_eq.
        -- unfold expired_entry. rewrite lookup_delete_ne by done.
           assert (bool_decide (k ∈ id :: ids) = bool_decide (k ∈ ids)) as ->
             by (apply bool_decide_ext; rewrite elem_of_cons; split; [intros [?|?]; [congruence|done]|by right]).
           done.
      * rewrite Hsent, (deletions_delete _ _ _ _ Hid). unfold deletions.
        rewrite filter_cons, Hex. rewrite decide_True by done.
        rewrite fmap_cons, <- app_assoc. done.
    + destruct (IH w Hall) as (w' & Hrun & Hlook & Hsent).
      exists w'. split; [exact Hrun|]. split.
      * intros k. rewrite Hlook. destruct (decide (k = id)) as [->|Hk].
        -- rewrite Hex. by rewrite !andb_false_r.
        -- assert (bool_decide (k ∈ id :: ids) = bool_decide (k ∈ ids)) as ->
             by (apply bool_decide_ext; rewrite elem_of_cons; split; [intros [?|?]; [congruence|done]|by right]).
           done.
      * rewrite Hsent. unfold deletions. rewrite filter_cons, Hex.
        by rewrite decide_False by done.
Qed.


(** X12: create-meeting under an id of the provider that the registry does
    not hold yet, followed by the DELETE route on that id, gives back the
    registry as it was, whatever the provider answers to the deletion; the
    log has grown by the two commands. *)
Theorem create_then_delete env g g' uid w md :
  g (Index.createMeetingCommand env) = inr (MeetingReply md) →
  provider_id (MeetingId md) = true →
  meetings w !! MeetingId md = None →
  ∃ w1 w2,
    Index.create_meeting env g uid w =
      (Normal (Json 200 (CreatedBody (MeetingId md))), w1)
    ∧ Index.delete_meeting g' (MeetingId md) w1 =
        (Normal (Json 200 (SuccessBody "Reunión eliminada correctamente" None)), w2)
    ∧ meetings w2 = meetings w
    ∧ sent w2 = (sent w ++ [Index.createMeetingCommand env;
                            DeleteMeetingCommand (JStr (MeetingId md))])%list.
Proof.
  intros Hg Hid Hnew. apply andb_prop in Hid as [Hne Hinh].
  assert (MeetingId md ≠ "__proto__") as Hproto.
  { intros Heq. rewrite Heq in Hinh. discriminate Hinh. }
  eexists _, _. split; [by apply create_meeting_success|].
  split.
  - apply (delete_meeting_present g' _ (MeetingId md) (created env md uid) Hne).
    apply lookup_insert_eq.
  - simpl. split.
    + rewrite delete_insert_eq. by apply delete_id.
    + by rewrite <- app_assoc.
Qed.

(** X13: every 200 answer of join-meeting on a session the handler finds
    carries the meeting copy of that session as it was before the call, and
    [isCreator] is true exactly when the [userId] of the request is
    strictly equal to the stored [creatorId]. *)
Theorem join_answer env g w id uid uname m r w' :
  truthy id = true →
  meetings w !! ToString id = Some m →
  Index.join_meeting env g id uid uname w = (Normal r, w') →
  status r = 200%nat →
  ∃ a b, body r = JoinBody (meetingInfo_of m) a b ∧ (b = true ↔ uid = creatorId m).
Proof.
  intros Ht Hm Hrun Hst.
  assert (∀ a, body r = JoinBody (meetingInfo_of m) a (strict_eq uid (creatorId m)) →
          ∃ a b, body r = JoinBody (meetingInfo_of m) a b ∧ (b = true ↔ uid = creatorId m))
    as Hfin.
  { intros a Ha. exists a, (strict_eq uid (creatorId m)). split; [done|].
    unfold strict_eq. apply bool_decide_eq_true. }
  destruct (attendees m !! ToString uid) as [a|] eqn:Ha.
  - rewrite (join_known env g w id uid uname m a Ht Hm Ha) in Hrun.
    injection Hrun as <- _. by eapply Hfin.
  - destruct (inherited (ToString uid)) eqn:Hi.
    + rewrite (join_inherited_name env g w id uid uname m Ht Hm Ha Hi) in Hrun.
      injection Hrun as <- _. by eapply Hfin.
    + assert (present (js_get (attendees m) (ToString uid)) = false) as Hp
        by (unfold js_get; by rewrite Ha, Hi).
      destruct (g (CreateAttendeeCommand id uid)) as [e|reply] eqn:Hg.
      * rewrite (join_rejected env g w id uid uname m e Ht Hm Hp Hg) in Hrun.
        injection Hrun as <- _. discriminate Hst.
      * rewrite (join_fresh env g w id uid uname m reply Ht Hm Hp Hg) in Hrun.
        injection Hrun as <- _. by eapply Hfin.
Qed.

(** X14: a join the provider accepts stores the attendee under the string
    form of its [userId], with the [userName] of the request or, when that
    is falsy, the [userId], the time of the call and the provider's
    attendee data; the other attendees of the session are untouched. *)
Theorem join_stores_attendee env g w id uid uname m reply :
  truthy id = true →
  meetings w !! ToString id = Some m →
  present (js_get (attendees m) (ToString uid)) = false →
  g (CreateAttendeeCommand id uid) = inr reply →
  ∃ m' a,
    meetings (Index.join_meeting env g id uid uname w).2 !! ToString id = Some m'
    ∧ attendees m' !! ToString uid = Some a
    ∧ userId a = uid
    ∧ userName a = (if truthy uname then uname else uid)
    ∧ joinTime a = Date.toISOString (now env)
    ∧ attendeeInfo a = reply_Attendee reply
    ∧ ∀ u, u ≠ ToString uid → attendees m' !! u = attendees m !! u.
Proof.
  intros Ht Hm Ha Hg. rewrite (join_fresh env g w id uid uname m reply Ht Hm Ha Hg).
  eexists _, _. simpl. split; [apply lookup_insert_eq|]. simpl.
  split; [apply lookup_insert_eq|]. repeat split.
  intros u Hu. by apply lookup_insert_ne.
Qed.

(** X15: stop-transcription, on a session the handler finds, sends the stop
    command whether or not transcription is enabled; when the provider
    accepts it the flag is cleared and nothing else of the session
    changes. *)
Theorem stop_always_asks_provider g w id m :
  truthy id = true →
  meetings w !! ToString id = Some m →
  sent (Index.stop_transcription g id w).2
    = (sent w ++ [StopMeetingTranscriptionCommand id])%list
  ∧ (∀ reply, g (StopMeetingTranscriptionCommand id) = inr reply →
       Index.stop_transcription g id w =
         (Normal (Json 200 (SuccessBody "Transcripción detenida" None)),
          {| meetings := <[ToString id := set_transcriptionEnabled false m]> (meetings w);
             sent := sent w ++ [StopMeetingTranscriptionCommand id] |})).
Proof.
  intros Ht Hm. split.
  - destruct (g (StopMeetingTranscriptionCommand id)) as [e|reply] eqn:Hg.
    + by rewrite (stop_failure g w id m e Ht Hm Hg).
    + by rewrite (stop_success g w id m reply Ht Hm Hg).
  - intros reply Hg. by apply (stop_success g w id m reply).
Qed.

(** X16: start-transcription of [server.js], on a session the handler
    finds: every rejection, of whatever kind, is answered with the 500
    error and leaves [meetings] unchanged; an accepted command sets the flag
    and nothing else. *)
Theorem server_start_is_all_or_error env g w id m :
  truthy id = true →
  meetings w !! ToString id = Some m →
  (∀ e, g (Server.startTranscriptionCommand env id) = inl e →
     Server.start_transcription env g id w =
       (Normal (Json 500 (ErrorBody ("Error al iniciar transcripción: " ++ message e))),
        {| meetings := meetings w;
           sent := sent w ++ [Server.startTranscriptionCommand env id] |}))
  ∧ (∀ reply, g (Server.startTranscriptionCommand env id) = inr reply →
       Server.start_transcription env g id w =
         (Normal (Json 200 (SuccessBody "Transcripción iniciada" None)),
          {| meetings := <[ToString id := set_transcriptionEnabled true m]> (meetings w);
             sent := sent w ++ [Server.startTranscriptionCommand env id] |})).
Proof.
  intros Ht Hm. split.
  - intros e Hg. by apply (server_start_failure env g w id m e).
  - intros reply Hg. by apply (server_start_success env g w id m reply).
Qed.

Lemma touch_keyed k ms ms' :
  touch k ms ms' →
  (∀ j m, ms !! j = Some m → session_keyed j m) →
  ∀ j m, ms' !! j = Some m → session_keyed j m.
Proof.
  intros Ht Hk j m' Hm'. destruct (decide (j = k)) as [->|Hj].
  - destruct Ht as [|m u a H0 Hu Ha|m how H0|m H0|].
    + by apply Hk.
    + rewrite lookup_insert_eq in Hm'. injection Hm' as <-.
      destruct (Hk _ _ H0) as (? & ? & Hatt). split; [done|]. split; [done|].
      simpl. intros u' a' Hl.
      apply lookup_insert_Some in Hl as [[Hu' Ha']|[_ H']]; [|by apply Hatt].
      by subst u' a'.
    + rewrite lookup_insert_eq in Hm'. injection Hm' as <-. exact (Hk _ _ H0).
    + rewrite lookup_insert_eq in Hm'. injection Hm' as <-. exact (Hk _ _ H0).
    + by rewrite lookup_delete_eq in Hm'.
  - apply Hk. by rewrite <- (touch_other _ _ _ _ Ht Hj).
Qed.

Lemma create_meeting_result env g uid w :
  meetings (Index.create_meeting env g uid w).2 = meetings w
  ∨ ∃ md, meetings (Index.create_meeting env g uid w).2
          = <[MeetingId md := created env md uid]> (meetings w).
Proof.
  unfold Index.create_meeting, try_catch. rewrite bind_run. unfold send.
  destruct (g _) as [e|[md| |]]; simpl; try by left.
  rewrite bind_run. unfold add_meeting. rewrite bind_run. simpl.
  destruct (String.eqb _ _); simpl; [by left|]. right. by exists md.
Qed.

Lemma cleanup_keeps_or_drops env g w k m :
  meetings (Index.cleanupExpiredMeetings env g w).2 !! k = Some m →
  meetings w !! k = Some m.
Proof.
  unfold Index.cleanupExpiredMeetings. rewrite bind_run. simpl.
  destruct (cleanup_loop_spec (now env) g (map_to_list (meetings w)).*1 w)
    as (w' & -> & Hlook & _).
  - apply NoDup_fst_map_to_list.
  - apply Forall_fmap, Forall_forall. intros [id m0] Hin. simpl.
    apply elem_of_map_to_list in Hin. eauto.
  - simpl. rewrite Hlook. by destruct (_ && _).
Qed.

Lemma exec_keyed env g ev w : keyed w → keyed (exec env g ev w).
Proof.
  intros Hk. destruct ev as [r|]; simpl.
  - destruct (request_meetingId r) as [id|] eqn:Hr.
    + destruct (handle_effect env g r w id Hr) as [Ht _].
      exact (touch_keyed _ _ _ Ht Hk).
    + destruct r as [| |uid| | | | | |]; try discriminate; simpl; [exact Hk|].
      unfold keyed.
      destruct (create_meeting_result env g uid w) as [->|[md ->]]; [exact Hk|].
      intros j m [[<- <-]|[_ H']]%lookup_insert_Some; [|by apply Hk].
      split; [done|]. split; [done|]. intros u a Hu.
      change ((∅ : gmap string AttendeeEntry) !! u = Some a) in Hu.
      by rewrite lookup_empty in Hu.
  - intros k m Hm. apply Hk. by apply (cleanup_keeps_or_drops env g).
Qed.

(** X17: in every state the process of [index.js] can reach, each session
    is stored under its own [meetingId], which is the provider's
    [Meeting.MeetingId], and each attendee under the string form of its
    [userId]. *)
Theorem reachable_keyed w : reachable w → keyed w.
Proof.
  induction 1 as [|env g ev w _ IH]; [|by apply exec_keyed].
  intros k m Hm. change ((∅ : gmap string Session) !! k = Some m) in Hm.
  by rewrite lookup_empty in Hm.
Qed.

(** ** The permission report *)

Lemma hasPermissionIssues_by_message listMeetings transcribeSend :
  hasPermissionIssues (verify_aws_permissions listMeetings transcribeSend)
  = (match listMeetings with
     | Some e => includes "AccessDenied" (message e)
     | None => false
     end
     || match transcribeSend with
        | Some e => includes "AccessDenied" (message e)
        | None => false
        end).
Proof. destruct listMeetings, transcribeSend; reflexivity. Qed.

(** X18: verify-aws-permissions reports a permission issue exactly when one
    of its two remote calls threw an error whose message contains
    [AccessDenied] (the name of the error is not looked at), and it gives
    its three recommendations exactly then; when both calls resolve, both
    checks are ['success'] and nothing is flagged.  This test and the
    permission test of start-transcription disagree in both directions:
    some error passes one and not the other. *)
Theorem verify_flags_by_message listMeetings transcribeSend :
  let report := verify_aws_permissions listMeetings transcribeSend in
  (hasPermissionIssues report = true ↔
     ∃ e, (listMeetings = Some e ∨ transcribeSend = Some e)
          ∧ includes "AccessDenied" (message e) = true)
  ∧ (recommendations report = [] ↔ hasPermissionIssues report = false)
  ∧ length (recommendations report) = (if hasPermissionIssues report then 3 else 0)%nat
  ∧ (listMeetings = None → transcribeSend = None →
     check_status (chimeSDKMeetings report) = "success"
     ∧ check_status (transcribe report) = "success"
     ∧ hasPermissionIssues report = false)
  ∧ (∃ e, Index.is_permission_error e = true
          ∧ hasPermissionIssues (verify_aws_permissions (Some e) (Some e)) = false)
  ∧ (∃ e, Index.is_permission_error e = false
          ∧ hasPermissionIssues (verify_aws_permissions (Some e) None) = true).
Proof.
  intros report. subst report. split; [|split; [|split; [|split; [|split]]]];
    [| | | |by exists Sample.denied
     |by exists {| name := "Error"; message := "AccessDenied: missing permission" |}].
  - rewrite hasPermissionIssues_by_message, orb_true_iff. split.
    + intros [Hi|Hi].
      * destruct listMeetings as [e|]; [|discriminate]. exists e. auto.
      * destruct transcribeSend as [e|]; [|discriminate]. exists e. auto.
    + intros (e & [-> | ->] & Hi); [by left|by right].
  - unfold verify_aws_permissions. simpl. by destruct (_ || _).
  - unfold verify_aws_permissions. simpl. by destruct (_ || _).
  - by intros -> ->.
Qed.

(** ** Instances on the sample states *)

Lemma missing_meeting_is_404_witness :
  handle (Sample.at_time Sample.t0) Sample.accepting
    (JoinMeeting (JStr "no-such-meeting") (JStr "u1") JUndefined) Sample.w_created
  = (Normal (Json 404 (ErrorBody "Reunión no encontrada")), Sample.w_created)
  ∧ handle (Sample.at_time Sample.t0) Sample.accepting
      (StopTranscription JUndefined) Sample.w_created
    = (Normal (Json 404 (ErrorBody "Reunión no encontrada")), Sample.w_created).
Proof.
  split.
  - apply (missing_meeting_is_404 _ _ _ _ (JStr "no-such-meeting")); [reflexivity|].
    right. vm_compute. reflexivity.
  - apply (missing_meeting_is_404 _ _ _ _ JUndefined); [reflexivity|].
    left. reflexivity.
Defined.

Lemma request_leaves_other_sessions_witness :
  (∀ j, j ≠ "another-meeting" →
     meetings (handle (Sample.at_time Sample.t0) Sample.accepting
                 (DeleteMeeting "another-meeting") Sample.w_started).2 !! j
     = meetings Sample.w_started !! j)
  ∧ (meetings Sample.w_started !! "another-meeting" = None →
     meetings (handle (Sample.at_time Sample.t0) Sample.accepting
                 (DeleteMeeting "another-meeting") Sample.w_started).2
       !! "another-meeting" = None).
Proof.
  apply (request_leaves_other_sessions (Sample.at_time Sample.t0) Sample.accepting
           (DeleteMeeting "another-meeting") Sample.w_started (JStr "another-meeting")).
  reflexivity.
Defined.

Lemma session_identity_kept_witness :
  meetingId Sample.m_joined = meetingId Sample.m_created
  ∧ Meeting Sample.m_joined = Meeting Sample.m_created
  ∧ creationTime Sample.m_joined = creationTime Sample.m_created
  ∧ creatorId Sample.m_joined = creatorId Sample.m_created
  ∧ attendees Sample.m_created ⊆ attendees Sample.m_joined.
Proof.
  apply (session_identity_kept (Sample.at_time (Sample.t0 + Sample.minutes 2))
           Sample.accepting (JoinMeeting (JStr Sample.id) (JStr "u1") (JStr "Ana"))
           Sample.w_created (JStr Sample.id)).
  - reflexivity.
  - vm_compute. reflexivity.
  - vm_compute. reflexivity.
Defined.

Lemma start_accepted_or_failed_witness :
  Index.start_transcription (Sample.at_time (Sample.t0 + Sample.minutes 1))
    Sample.accepting (JStr Sample.id) JUndefined (JStr "es") Sample.w_created
  = (Normal (Json 200 (SuccessBody "Transcripción iniciada correctamente" None)),
     Sample.w_started)
  ∧ (Index.start_transcription (Sample.at_time (Sample.t0 + Sample.minutes 1))
       Sample.failing (JStr Sample.id) JUndefined (JStr "es") Sample.w_created).1
    = Normal (Json 500 (ErrorBody "Error al iniciar transcripción: Service unavailable")).
Proof.
  destruct (start_accepted_or_failed (Sample.at_time (Sample.t0 + Sample.minutes 1))
              Sample.accepting Sample.w_created (JStr Sample.id) JUndefined (JStr "es")
              Sample.m_created eq_refl eq_refl) as [Hok _].
  destruct (start_accepted_or_failed (Sample.at_time (Sample.t0 + Sample.minutes 1))
              Sample.failing Sample.w_created (JStr Sample.id) JUndefined (JStr "es")
              Sample.m_created eq_refl eq_refl) as [_ Hfail].
  split.
  - rewrite (Hok EmptyReply eq_refl). vm_compute. reflexivity.
  - by rewrite (Hfail Sample.unavailable eq_refl eq_refl).
Defined.

Lemma check_transcription_reads_witness :
  ∃ chime,
    Index.check_transcription (Sample.at_time (Sample.t0 + Sample.minutes 3))
      Sample.failing Sample.id Sample.w_started =
      (Normal (Json 200 (StatusBody Sample.id true chime
                           (Date.toISOString (Sample.t0 + Sample.minutes 3)))),
       {| meetings := meetings Sample.w_started;
          sent := sent Sample.w_started ++ [GetMeetingCommand (JStr Sample.id)] |})
    ∧ (chime = true ↔
       ∃ md, Sample.failing (GetMeetingCommand (JStr Sample.id)) = inr (MeetingReply md)
             ∧ TranscriptionStatus md = JStr "Active").
Proof.
  apply (check_transcription_reads (Sample.at_time (Sample.t0 + Sample.minutes 3))
           Sample.failing Sample.w_started Sample.id Sample.m_started);
    reflexivity.
Defined.

Lemma reaper_never_removes_witness :
  Index.cleanupExpiredMeetings (Sample.at_time (Sample.t0 + Sample.minutes 600))
    Sample.failing Sample.w_started = (Normal (), Sample.w_started).
Proof.
  apply reaper_never_removes.
  apply reachable_exec, reachable_exec, reachable_initial.
Defined.

(** The loop of the reaper does drop an entry whose creation time is a
    string of digits, here with a provider that rejects the deletion. *)
Example reaper_drops_numeric_stamp :
  Index.cleanupExpiredMeetings (Sample.at_time (Sample.t0 + Sample.minutes 61))
    Sample.failing Sample.w_numeric
  = (Normal (), {| meetings := ∅; sent := [DeleteMeetingCommand (JStr Sample.id)] |}).
Proof. vm_compute. reflexivity. Qed.

Lemma create_then_delete_witness :
  ∃ w1 w2,
    Index.create_meeting (Sample.at_time Sample.t0) Sample.accepting (JStr "u0") initial =
      (Normal (Json 200 (CreatedBody Sample.id)), w1)
    ∧ Index.delete_meeting Sample.failing Sample.id w1 =
        (Normal (Json 200 (SuccessBody "Reunión eliminada correctamente" None)), w2)
    ∧ meetings w2 = meetings initial
    ∧ sent w2 = (sent initial
                   ++ [Index.createMeetingCommand (Sample.at_time Sample.t0);
                       DeleteMeetingCommand (JStr Sample.id)])%list.
Proof.
  apply (create_then_delete (Sample.at_time Sample.t0) Sample.accepting Sample.failing
           (JStr "u0") initial Sample.meeting); reflexivity.
Defined.

Lemma join_answer_witness :
  ∃ a b,
    JoinBody (meetingInfo_of Sample.m_created) (Some (Sample.attendee (JStr "u0"))) true
    = JoinBody (meetingInfo_of Sample.m_created) a b
    ∧ (b = true ↔ JStr "u0" = creatorId Sample.m_created).
Proof.
  apply (join_answer (Sample.at_time (Sample.t0 + Sample.minutes 2)) Sample.accepting
           Sample.w_created (JStr Sample.id) (JStr "u0") JUndefined Sample.m_created
           (Json 200 (JoinBody (meetingInfo_of Sample.m_created)
                        (Some (Sample.attendee (JStr "u0"))) true))
           (Index.join_meeting (Sample.at_time (Sample.t0 + Sample.minutes 2))
              Sample.accepting (JStr Sample.id) (JStr "u0") JUndefined Sample.w_created).2).
  - reflexivity.
  - vm_compute. reflexivity.
  - vm_compute. reflexivity.
  - reflexivity.
Defined.

Lemma join_stores_attendee_witness :
  ∃ m' a,
    meetings (Index.join_meeting (Sample.at_time (Sample.t0 + Sample.minutes 2))
                Sample.accepting (JStr Sample.id) (JStr "u1") JUndefined
                Sample.w_created).2 !! Sample.id = Some m'
    ∧ attendees m' !! "u1" = Some a
    ∧ userId a = JStr "u1"
    ∧ userName a = JStr "u1"
    ∧ joinTime a = "2023-11-14T22:15:20.000Z"
    ∧ attendeeInfo a = Some (Sample.attendee (JStr "u1"))
    ∧ ∀ u, u ≠ "u1" → attendees m' !! u = attendees Sample.m_created !! u.
Proof.
  apply (join_stores_attendee (Sample.at_time (Sample.t0 + Sample.minutes 2))
           Sample.accepting Sample.w_created (JStr Sample.id) (JStr "u1") JUndefined
           Sample.m_created (AttendeeReply (Sample.attendee (JStr "u1"))));
    reflexivity.
Defined.

Lemma stop_always_asks_provider_witness :
  (transcriptionEnabled <$> meetings Sample.w_created !! Sample.id) = Some false
  ∧ sent (Index.stop_transcription Sample.failing (JStr Sample.id) Sample.w_created).2
    = (sent Sample.w_created ++ [StopMeetingTranscriptionCommand (JStr Sample.id)])%list.
Proof.
  split; [reflexivity|].
  apply (proj1 (stop_always_asks_provider Sample.failing Sample.w_created
                  (JStr Sample.id) Sample.m_created eq_refl eq_refl)).
Defined.

Lemma server_start_is_all_or_error_witness :
  Server.start_transcription (Sample.at_time (Sample.t0 + Sample.minutes 1))
    Sample.failing (JStr Sample.id) Sample.w_created =
    (Normal (Json 500 (ErrorBody "Error al iniciar transcripción: Service unavailable")),
     {| meetings := meetings Sample.w_created;
        sent := sent Sample.w_created
                ++ [Server.startTranscriptionCommand
                      (Sample.at_time (Sample.t0 + Sample.minutes 1)) (JStr Sample.id)] |}).
Proof.
  apply (proj1 (server_start_is_all_or_error
                  (Sample.at_time (Sample.t0 + Sample.minutes 1)) Sample.failing
                  Sample.w_created (JStr Sample.id) Sample.m_created eq_refl eq_refl)
           Sample.unavailable).
  reflexivity.
Defined.

Lemma reachable_keyed_witness : keyed Sample.w_joined.
Proof.
  apply reachable_keyed.
  apply reachable_exec, reachable_exec, reachable_initial.
Defined.
